(** * SimpleMarketplaceASC1: the approval program of the resale marketplace

    The contract of [decentralized_marketplace_asc1.py] is a PyTeal
    expression tree, compiled to TEAL and evaluated by the AVM once per
    application call.  This development embeds the PyTeal combinators the
    contract uses as functions over an explicit evaluation context (the
    transaction group with the position of the call under evaluation) and an
    explicit global key/value store, writes the handlers with them the way the
    source does, and proves the properties of the listing state machine. *)

From stdpp Require Import gmap strings list fin_maps.
From Stdlib Require Import ZArith.

Local Open Scope Z_scope.

(** ** Values, store, transactions *)

(** A TEAL stack value: a uint64 or a byte string. *)
Inductive TealValue :=
| VUint (n : Z)
| VBytes (b : string).

Global Instance TealValue_eq_dec : EqDecision TealValue.
Proof. solve_decision. Defined.

(** Transaction type codes ([TxnType] of PyTeal). *)
Module TxnType.
Definition Payment : Z := 1.
Definition KeyRegistration : Z := 2.
Definition AssetConfig : Z := 3.
Definition AssetTransfer : Z := 4.
Definition AssetFreeze : Z := 5.
Definition ApplicationCall : Z := 6.
End TxnType.

(** An account address: 32 bytes.  The AVM gives the sender, the receiver and
    the asset receiver of every transaction as addresses. *)
Record address := mk_address {
  addr_bytes : string;
  addr_size : bool_decide (String.length addr_bytes = 32%nat) = true
}.

Definition zero_address : address :=
  mk_address (String.string_of_list_ascii (repeat Ascii.zero 32)) eq_refl.

(** The address a byte string is, the zero address when it is not one. *)
Definition addr (s : string) : address :=
  match decide (bool_decide (String.length s = 32%nat) = true) with
  | left H => mk_address s H
  | right _ => zero_address
  end.

(** The fields of a transaction the contract reads.  The AVM gives every
    transaction every field (zero or the zero address when the type does not
    use it), so one record serves all types. *)
Record txn := mk_txn {
  type_enum : Z;
  sender_address : address;
  receiver_address : address;
  amount : Z;
  asset_receiver_address : address;
  xfer_asset : Z;
  asset_amount : Z;
  application_id : Z;
  application_args : list string
}.

Definition sender (t : txn) : string := addr_bytes (sender_address t).
Definition receiver (t : txn) : string := addr_bytes (receiver_address t).
Definition asset_receiver (t : txn) : string :=
  addr_bytes (asset_receiver_address t).

(** The evaluation context: the group, split around the transaction under
    evaluation ([Txn]); [Gtxn[i]] indexes the whole group. *)
Record env := mk_env {
  before : list txn;
  Txn : txn;
  after : list txn
}.

Definition group (e : env) : list txn := before e ++ Txn e :: after e.

(** ** Evaluation outcomes *)

(** An expression either yields a value and continues, leaves the program
    through [Return] with a code, or fails (the AVM's [err]: the evaluation
    is aborted and no verdict is produced).  Each carries the store as the
    evaluation left it. *)
Inductive outcome (A : Type) :=
| Next (a : A) (g : gmap string TealValue)
| Halt (code : Z) (g : gmap string TealValue)
| Fail (g : gmap string TealValue).
Arguments Next {A} a g.
Arguments Halt {A} code g.
Arguments Fail {A} g.

Definition Expr (A : Type) : Type := env → gmap string TealValue → outcome A.

Definition ret {A} (a : A) : Expr A := fun _ g => Next a g.

Definition bind {A B} (m : Expr A) (f : A → Expr B) : Expr B :=
  fun e g =>
    match m e g with
    | Next a g' => f a e g'
    | Halt c g' => Halt c g'
    | Fail g' => Fail g'
    end.

Definition fail {A} : Expr A := fun _ g => Fail g.

Notation "'let*' x := m 'in' k" := (bind m (fun x => k))
  (at level 10, x name, m at level 100, k at level 200, only parsing).

(** ** The PyTeal combinators used by the contract *)

Definition Int (n : Z) : Expr TealValue := ret (VUint n).
Definition Bytes (s : string) : Expr TealValue := ret (VBytes s).

(** [==] and [!=]: both operands are evaluated; the AVM compares two uint64 or
    two byte strings and fails on operands of different types (a stored key
    read with [App.globalGet] has no static type, so PyTeal accepts the
    comparison and the check is left to the evaluation). *)
Definition teal_eqb (x y : TealValue) : option bool :=
  match x, y with
  | VUint m, VUint n => Some (m =? n)
  | VBytes s, VBytes t => Some (bool_decide (s = t))
  | _, _ => None
  end.

Definition of_bool (b : bool) : TealValue := VUint (if b then 1 else 0).

Definition Eq_ (a b : Expr TealValue) : Expr TealValue :=
  let* x := a in let* y := b in
  match teal_eqb x y with
  | Some r => ret (of_bool r)
  | None => fail
  end.

Definition Neq (a b : Expr TealValue) : Expr TealValue :=
  let* x := a in let* y := b in
  match teal_eqb x y with
  | Some r => ret (of_bool (negb r))
  | None => fail
  end.

Notation "a == b" := (Eq_ a b) (at level 70, no associativity).
Notation "a != b" := (Neq a b) (at level 70, no associativity).

(** [&&] and [||] take two uint64 operands, both already evaluated. *)
Definition logic_op (op : bool → bool → bool) (a b : Expr TealValue) : Expr TealValue :=
  let* x := a in let* y := b in
  match x, y with
  | VUint m, VUint n => ret (of_bool (op (negb (m =? 0)) (negb (n =? 0))))
  | _, _ => fail
  end.

(** An n-ary [And]/[Or] compiles to its operands in order, with the binary
    opcode after each operand but the first: every operand is evaluated,
    whatever the value of the ones before it (there is no short circuit), and
    a failing operand fails the whole expression. *)
Definition nary (op : bool → bool → bool) (args : list (Expr TealValue)) : Expr TealValue :=
  match args with
  | [] => fail
  | a :: rest => fold_left (logic_op op) rest a
  end.

Definition And := nary andb.
Definition Or := nary orb.

Definition If {A} (c : Expr TealValue) (t f : Expr A) : Expr A :=
  let* x := c in
  match x with
  | VUint n => if n =? 0 then f else t
  | VBytes _ => fail
  end.

Fixpoint Seq (l : list (Expr unit)) : Expr unit :=
  match l with
  | [] => ret tt
  | s :: rest => let* _ := s in Seq rest
  end.

Definition Return {A} (c : Expr TealValue) : Expr A :=
  let* x := c in
  match x with
  | VUint n => fun _ g => Halt n g
  | VBytes _ => fail
  end.

Definition Assert (c : Expr TealValue) : Expr unit :=
  let* x := c in
  match x with
  | VUint n => if n =? 0 then fail else ret tt
  | VBytes _ => fail
  end.

(** [Cond]: the conditions are tested in order, the first that holds selects
    its body; when none holds the program fails. *)
Fixpoint Cond {A} (l : list (Expr TealValue * Expr A)) : Expr A :=
  match l with
  | [] => fail
  | (c, body) :: rest => If c body (Cond rest)
  end.

(** [Btoi]: big-endian decoding of at most 8 bytes. *)
Fixpoint btoi_acc (acc : Z) (s : string) : Z :=
  match s with
  | EmptyString => acc
  | String c rest => btoi_acc (acc * 256 + Z.of_N (Ascii.N_of_ascii c)) rest
  end.

Definition Btoi (a : Expr TealValue) : Expr TealValue :=
  let* x := a in
  match x with
  | VBytes s => if (String.length s <=? 8)%nat then ret (VUint (btoi_acc 0 s)) else fail
  | VUint _ => fail
  end.

Module Global.
Definition group_size : Expr TealValue :=
  fun e g => Next (VUint (Z.of_nat (length (group e)))) g.
End Global.

(** Fields of the transaction under evaluation. *)
Definition Txn_field (f : txn → TealValue) : Expr TealValue :=
  fun e g => Next (f (Txn e)) g.

Definition Txn_sender : Expr TealValue := Txn_field (fun t => VBytes (sender t)).
Definition Txn_application_id : Expr TealValue :=
  Txn_field (fun t => VUint (application_id t)).

(** [Txn.application_args[i]] fails when [i] is out of range. *)
Definition Txn_application_args (i : nat) : Expr TealValue :=
  fun e g =>
    match application_args (Txn e) !! i with
    | Some a => Next (VBytes a) g
    | None => Fail g
    end.

Definition Txn_application_args_length : Expr TealValue :=
  Txn_field (fun t => VUint (Z.of_nat (length (application_args t)))).

(** [Gtxn[i].field()] compiles to [gtxn i field], which fails when the group
    has no record [i]. *)
Definition Gtxn (i : nat) (f : txn → TealValue) : Expr TealValue :=
  fun e g =>
    match group e !! i with
    | Some t => Next (f t) g
    | None => Fail g
    end.

Definition Gtxn_uint (i : nat) (f : txn → Z) : Expr TealValue :=
  Gtxn i (fun t => VUint (f t)).
Definition Gtxn_bytes (i : nat) (f : txn → string) : Expr TealValue :=
  Gtxn i (fun t => VBytes (f t)).

(** Reading a key of the store: an absent key reads as the uint64 0. *)
Definition field (g : gmap string TealValue) (k : string) : TealValue :=
  default (VUint 0) (g !! k).

(** The limits of a global key/value pair: a key of at most 64 bytes, a byte
    value of at most 128 bytes, and at most 128 bytes for the key and the
    byte value together. *)
Definition MaxAppKeyLen : nat := 64.
Definition MaxAppBytesValueLen : nat := 128.
Definition MaxAppSumKeyValueLens : nat := 128.

Definition storable (k : string) (v : TealValue) : bool :=
  (String.length k <=? MaxAppKeyLen)%nat
  && match v with
     | VUint _ => true
     | VBytes b =>
         (String.length b <=? MaxAppBytesValueLen)%nat
         && (String.length k + String.length b <=? MaxAppSumKeyValueLens)%nat
     end.

Module App.
(** [app_global_get]. *)
Definition globalGet (k : string) : Expr TealValue :=
  fun _ g => Next (field g k) g.

(** [app_global_get_ex] on the current application: the value, if any. *)
Definition globalGetEx (k : string) : Expr (option TealValue) :=
  fun _ g => Next (g !! k) g.

(** [app_global_put] fails on a pair that exceeds the limits. *)
Definition globalPut (k : string) (v : Expr TealValue) : Expr unit :=
  let* x := v in
  if storable k x then fun _ g => Next tt (<[k := x]> g) else fail.
End App.

Definition hasValue (m : option TealValue) : Expr TealValue :=
  ret (of_bool (bool_decide (is_Some m))).

(** ** The contract *)

Module SimpleMarketplaceASC1.

Module Variables.
Definition escrow_address : string := "ESCROW_ADDRESS".
Definition asa_id : string := "ASA_ID".
Definition asa_price : string := "ASA_PRICE".
Definition asa_owner : string := "ASA_OWNER".
Definition app_state : string := "APP_STATE".
Definition app_admin : string := "APP_ADMIN".
End Variables.

Module AppMethods.
Definition initialize_escrow : string := "initializeEscrow".
Definition sell : string := "sell".
Definition buy : string := "buy".
Definition stop_selling : string := "stopSelling".
End AppMethods.

Module AppState.
Definition not_initialized : Z := 0.
Definition active : Z := 1.
Definition selling_in_progress : Z := 2.
End AppState.

Definition app_initialization : Expr unit :=
  Seq [
    Assert (Txn_application_args_length == Int 3);
    App.globalPut Variables.app_state (Int AppState.not_initialized);
    App.globalPut Variables.asa_id (Btoi (Txn_application_args 0));
    App.globalPut Variables.asa_owner (Txn_application_args 1);
    App.globalPut Variables.app_admin (Txn_application_args 2);
    Return (Int 1)
  ].

Definition initialize_escrow : Expr unit :=
  let not_valid_number_of_transactions := Global.group_size != Int 1 in
  let setup_escrow :=
    Seq [
      App.globalPut Variables.escrow_address (Txn_application_args 1);
      App.globalPut Variables.app_state (Int AppState.active);
      Return (Int 1)
    ] in
  let not_admin := App.globalGet Variables.app_admin != Txn_sender in
  let* escrow_address := App.globalGetEx Variables.escrow_address in
  If (Or [hasValue escrow_address;
          not_admin;
          not_valid_number_of_transactions])
     (Return (Int 0))
     setup_escrow.

Definition sell : Expr unit :=
  let valid_number_of_transactions := Global.group_size == Int 1 in
  let app_is_active :=
    Or [App.globalGet Variables.app_state == Int AppState.active;
        App.globalGet Variables.app_state == Int AppState.selling_in_progress] in
  let valid_seller := Txn_sender == App.globalGet Variables.asa_owner in
  let valid_number_of_arguments := Txn_application_args_length == Int 2 in
  let can_sell :=
    And [valid_number_of_transactions;
         app_is_active;
         valid_seller;
         valid_number_of_arguments] in
  let update_state :=
    Seq [
      App.globalPut Variables.asa_price (Btoi (Txn_application_args 1));
      App.globalPut Variables.app_state (Int AppState.selling_in_progress);
      Return (Int 1)
    ] in
  If can_sell update_state (Return (Int 0)).

Definition buy : Expr unit :=
  let valid_number_of_transactions := Global.group_size == Int 3 in
  let asa_is_on_sale :=
    App.globalGet Variables.app_state == Int AppState.selling_in_progress in
  let valid_payment_to_seller :=
    And [Gtxn_uint 1 type_enum == Int TxnType.Payment;
         Gtxn_bytes 1 receiver == App.globalGet Variables.asa_owner;
         Gtxn_uint 1 amount == App.globalGet Variables.asa_price;
         Gtxn_bytes 1 sender == Gtxn_bytes 0 sender;
         Gtxn_bytes 1 sender == Gtxn_bytes 2 asset_receiver] in
  let valid_asa_transfer_from_escrow_to_buyer :=
    And [Gtxn_uint 2 type_enum == Int TxnType.AssetTransfer;
         Gtxn_bytes 2 sender == App.globalGet Variables.escrow_address;
         Gtxn_uint 2 xfer_asset == App.globalGet Variables.asa_id;
         Gtxn_uint 2 asset_amount == Int 1] in
  let can_buy :=
    And [valid_number_of_transactions;
         asa_is_on_sale;
         valid_payment_to_seller;
         valid_asa_transfer_from_escrow_to_buyer] in
  let update_state :=
    Seq [
      App.globalPut Variables.asa_owner (Gtxn_bytes 0 sender);
      App.globalPut Variables.app_state (Int AppState.active);
      Return (Int 1)
    ] in
  If can_buy update_state (Return (Int 0)).

Definition stop_selling : Expr unit :=
  let valid_number_of_transactions := Global.group_size == Int 1 in
  let valid_caller := Txn_sender == App.globalGet Variables.asa_owner in
  let app_is_initialized :=
    App.globalGet Variables.app_state != Int AppState.not_initialized in
  let can_stop_selling :=
    And [valid_number_of_transactions;
         valid_caller;
         app_is_initialized] in
  let update_state :=
    Seq [
      App.globalPut Variables.app_state (Int AppState.active);
      Return (Int 1)
    ] in
  If can_stop_selling update_state (Return (Int 0)).

Definition application_start : Expr unit :=
  let actions :=
    Cond [
      (Txn_application_id == Int 0, app_initialization);
      (Txn_application_args 0 == Bytes AppMethods.buy, buy);
      (Txn_application_args 0 == Bytes AppMethods.initialize_escrow, initialize_escrow);
      (Txn_application_args 0 == Bytes AppMethods.stop_selling, stop_selling);
      (Txn_application_args 0 == Bytes AppMethods.sell, sell)
    ] in
  actions.

Definition approval_program : Expr unit := application_start.

Definition clear_program : Expr unit := Return (Int 1).

End SimpleMarketplaceASC1.

Import SimpleMarketplaceASC1.

(** ** Verdict of one evaluation

    The AVM approves a call when the program returns a nonzero code and
    commits the store the evaluation wrote; a zero code rejects the call, a
    failure aborts it, and both discard what was written.  A program that runs
    to its end without [Return] leaves an empty stack, which fails too. *)

Inductive verdict :=
| Approved (g : gmap string TealValue)
| Rejected
| Aborted.

Definition run (p : Expr unit) (e : env) (g : gmap string TealValue) : verdict :=
  match p e g with
  | Halt c g' => if c =? 0 then Rejected else Approved g'
  | Next _ _ => Aborted
  | Fail _ => Aborted
  end.

Definition commit (p : Expr unit) (e : env) (g : gmap string TealValue)
  : gmap string TealValue :=
  match run p e g with
  | Approved g' => g'
  | Rejected | Aborted => g
  end.

(** The store an evaluation was working on when it stopped. *)
Definition store_of {A} (o : outcome A) : gmap string TealValue :=
  match o with
  | Next _ g | Halt _ g | Fail g => g
  end.

(** The four actions of the listing state machine. *)
Inductive action := InitializeEscrow | Sell | Buy | StopSelling.

Global Instance action_eq_dec : EqDecision action.
Proof. solve_decision. Defined.

Definition handler (a : action) : Expr unit :=
  match a with
  | InitializeEscrow => initialize_escrow
  | Sell => sell
  | Buy => buy
  | StopSelling => stop_selling
  end.

(** A history of calls to an existing application: each call names the
    handler it reaches and the group it is evaluated in. *)
Fixpoint verdicts (cs : list (action * env)) (g : gmap string TealValue)
  : list verdict :=
  match cs with
  | [] => []
  | (a, e) :: rest =>
      run (handler a) e g :: verdicts rest (commit (handler a) e g)
  end.

Fixpoint run_calls (cs : list (action * env)) (g : gmap string TealValue)
  : gmap string TealValue :=
  match cs with
  | [] => g
  | (a, e) :: rest => run_calls rest (commit (handler a) e g)
  end.

(** The stores the contract can be in: created by [app_initialization] from
    the empty store, then any calls. *)
Inductive reachable : gmap string TealValue → Prop :=
| reachable_created e g :
    application_id (Txn e) = 0 →
    run approval_program e ∅ = Approved g → reachable g
| reachable_call e g :
    reachable g → application_id (Txn e) ≠ 0 →
    reachable (commit approval_program e g).

(** The types the six keys hold (three uint64, three byte slices, as the
    schema declares); the price and the escrow address may be unset. *)
Definition is_uint (v : option TealValue) : bool :=
  match v with Some (VUint _) => true | _ => false end.
Definition is_bytes (v : option TealValue) : bool :=
  match v with Some (VBytes _) => true | _ => false end.
Definition unset_or_uint (v : option TealValue) : bool :=
  match v with Some (VBytes _) => false | _ => true end.
Definition unset_or_bytes (v : option TealValue) : bool :=
  match v with Some (VUint _) => false | _ => true end.

Definition well_typed (g : gmap string TealValue) : bool :=
  is_uint (g !! Variables.app_state)
  && is_uint (g !! Variables.asa_id)
  && is_bytes (g !! Variables.asa_owner)
  && is_bytes (g !! Variables.app_admin)
  && unset_or_uint (g !! Variables.asa_price)
  && unset_or_bytes (g !! Variables.escrow_address).

(** ** Properties of expressions *)

(** An expression that only reads: it yields a value or fails, and leaves
    the store as it is. *)
Definition pure (c : Expr TealValue) : Prop :=
  ∀ e g, (∃ v, c e g = Next v g) ∨ c e g = Fail g.

(** A condition that does not hold: it evaluates to 0 or fails. *)
Definition falsy (c : Expr TealValue) (e : env) (g : gmap string TealValue) : Prop :=
  c e g = Next (VUint 0) g ∨ c e g = Fail g.

(** Two contexts on which an expression cannot tell the difference. *)
Definition agree {A} (e e' : env) (c : Expr A) : Prop := ∀ g, c e g = c e' g.

(** ** Properties of the store *)

(** Whether a value may be stored under a key. *)
Definition fits (k : string) (v : TealValue) : bool :=
  if bool_decide (k = Variables.app_state ∨ k = Variables.asa_id
                  ∨ k = Variables.asa_price)
  then is_uint (Some v)
  else if bool_decide (k = Variables.asa_owner ∨ k = Variables.app_admin
                       ∨ k = Variables.escrow_address)
       then is_bytes (Some v)
       else true.

(** The invariant of the listing record: the fields have their types, the
    state is one of the three, and the escrow address is unset exactly in
    [NotInitialized]. *)
Definition listing_inv (g : gmap string TealValue) : Prop :=
  well_typed g = true
  ∧ ∃ st, field g Variables.app_state = VUint st
          ∧ (st = AppState.not_initialized ∨ st = AppState.active
             ∨ st = AppState.selling_in_progress)
          ∧ (st = AppState.not_initialized ↔ g !! Variables.escrow_address = None).

(** The keys each handler passes to [App.globalPut]. *)
Definition writes (a : action) : list string :=
  match a with
  | InitializeEscrow => [Variables.escrow_address; Variables.app_state]
  | Sell => [Variables.asa_price; Variables.app_state]
  | Buy => [Variables.asa_owner; Variables.app_state]
  | StopSelling => [Variables.app_state]
  end.

(** ** The preconditions of the actions, in the words of the specification *)

Module Spec.
(** initializeEscrow: a singleton group, the escrow address unset, the
    caller the stored admin. *)
Definition initialize_escrow_ok (e : env) (g : gmap string TealValue) : Prop :=
  length (group e) = 1%nat
  ∧ g !! Variables.escrow_address = None
  ∧ field g Variables.app_admin = VBytes (sender (Txn e)).

(** sell: a singleton group, exactly two arguments, the listing active or
    already on sale, the caller the stored owner. *)
Definition sell_ok (e : env) (g : gmap string TealValue) : Prop :=
  length (group e) = 1%nat
  ∧ length (application_args (Txn e)) = 2%nat
  ∧ (field g Variables.app_state = VUint AppState.active
     ∨ field g Variables.app_state = VUint AppState.selling_in_progress)
  ∧ field g Variables.asa_owner = VBytes (sender (Txn e)).

(** buy: a group of exactly three records, the listing on sale, the payment
    and the asset transfer as required. *)
Definition buy_ok (e : env) (g : gmap string TealValue) : Prop :=
  ∃ r0 r1 r2,
    group e = [r0; r1; r2]
    ∧ field g Variables.app_state = VUint AppState.selling_in_progress
    ∧ type_enum r1 = TxnType.Payment
    ∧ field g Variables.asa_owner = VBytes (receiver r1)
    ∧ field g Variables.asa_price = VUint (amount r1)
    ∧ sender r1 = sender r0
    ∧ sender r1 = asset_receiver r2
    ∧ type_enum r2 = TxnType.AssetTransfer
    ∧ field g Variables.escrow_address = VBytes (sender r2)
    ∧ field g Variables.asa_id = VUint (xfer_asset r2)
    ∧ asset_amount r2 = 1.

(** stopSelling: a singleton group, the caller the stored owner, the listing
    initialised. *)
Definition stop_selling_ok (e : env) (g : gmap string TealValue) : Prop :=
  length (group e) = 1%nat
  ∧ field g Variables.asa_owner = VBytes (sender (Txn e))
  ∧ field g Variables.app_state ≠ VUint AppState.not_initialized.

Definition ok (a : action) : env → gmap string TealValue → Prop :=
  match a with
  | InitializeEscrow => initialize_escrow_ok
  | Sell => sell_ok
  | Buy => buy_ok
  | StopSelling => stop_selling_ok
  end.
End Spec.

(** ** The end-to-end scenario of the specification *)

Module Scenario.
Definition A : string := "ALICE...........................".
Definition B : string := "BOB.............................".
Definition M : string := "ADMIN...........................".
Definition E : string := "ESCROW..........................".

(** An application call: [app] is 0 for the creation call. *)
Definition call (app : Z) (from : string) (args : list string) : txn :=
  mk_txn TxnType.ApplicationCall (addr from) zero_address 0 zero_address 0 0 app args.
Definition payment (from to : string) (amt : Z) : txn :=
  mk_txn TxnType.Payment (addr from) (addr to) amt zero_address 0 0 0 [].
Definition asset_transfer (from to : string) (id qty : Z) : txn :=
  mk_txn TxnType.AssetTransfer (addr from) zero_address 0 (addr to) id qty 0 [].
Definition alone (t : txn) : env := mk_env [] t [].

(** 42 is the byte "*", 100 the byte "d", 50 the byte "2". *)
Definition create : env := alone (call 0 M ["*"; A; M]).
Definition init : env := alone (call 7 M ["initializeEscrow"; E]).
Definition sell_100 : env := alone (call 7 A ["sell"; "d"]).
Definition buy_group : env :=
  mk_env [] (call 7 B ["buy"]) [payment B A 100; asset_transfer E B 42 1].
Definition sell_50 : env := alone (call 7 B ["sell"; "2"]).
Definition stop : env := alone (call 7 B ["stopSelling"]).
Definition buy_alone : env := alone (call 7 B ["buy"]).
Definition buy_pair : env := mk_env [] (call 7 B ["buy"]) [payment B A 100].
Definition init_again : env := alone (call 7 M ["initializeEscrow"; B]).
Definition init_no_address : env := alone (call 7 M ["initializeEscrow"]).
Definition sell_by_other : env := alone (call 7 B ["sell"; "d"]).
Definition stop_by_owner : env := alone (call 7 A ["stopSelling"]).
Definition create_long_id : env := alone (call 0 M ["123456789"; A; M]).
(** A buy group whose record 0 is not an application call, evaluated at its
    payment record. *)
Definition buy_odd_group : env :=
  mk_env [payment B "" 0] (payment B A 100) [asset_transfer E B 42 1].

Definition s0 := commit approval_program create ∅.
Definition s1 := commit approval_program init s0.
Definition s2 := commit approval_program sell_100 s1.
Definition s3 := commit approval_program buy_group s2.
Definition s4 := commit approval_program sell_50 s3.
Definition s5 := commit approval_program stop s4.

(** The six fields, in the order of the data model. *)
Definition listing (g : gmap string TealValue) :=
  (g !! Variables.escrow_address, g !! Variables.asa_id,
   g !! Variables.asa_price, g !! Variables.asa_owner,
   g !! Variables.app_admin, g !! Variables.app_state).
End Scenario.

(** ** The state schema *)

(** [algosdk.future.transaction.StateSchema]: how many uint64 and how many
    byte-slice values a store may hold. *)
Record StateSchema := mk_schema {
  num_uints : nat;
  num_byte_slices : nat
}.

Module Schema.
Definition global_schema : StateSchema :=
  {| num_uints := 3; num_byte_slices := 3 |}.

Definition local_schema : StateSchema :=
  {| num_uints := 0; num_byte_slices := 0 |}.
End Schema.

(** What a store uses of a schema. *)
Definition count_uints (g : gmap string TealValue) : nat :=
  size (filter (fun kv => is_uint (Some kv.2) = true) g).

Definition count_byte_slices (g : gmap string TealValue) : nat :=
  size (filter (fun kv => is_bytes (Some kv.2) = true) g).

Definition fits_schema (sc : StateSchema) (g : gmap string TealValue) : Prop :=
  (count_uints g ≤ num_uints sc)%nat ∧ (count_byte_slices g ≤ num_byte_slices sc)%nat.

(** The keys of [Variables]. *)
Definition variables : list string :=
  [Variables.escrow_address; Variables.asa_id; Variables.asa_price;
   Variables.asa_owner; Variables.app_state; Variables.app_admin].

(** The method names of [AppMethods]. *)
Definition app_methods : list string :=
  [AppMethods.initialize_escrow; AppMethods.sell; AppMethods.buy;
   AppMethods.stop_selling].

(** The name that selects a handler. *)
Definition method_of (a : action) : string :=
  match a with
  | InitializeEscrow => AppMethods.initialize_escrow
  | Sell => AppMethods.sell
  | Buy => AppMethods.buy
  | StopSelling => AppMethods.stop_selling
  end.

(** The states in which the asset is owned through the listing. *)
Definition on_listing (st : Z) : Prop :=
  st = AppState.active ∨ st = AppState.selling_in_progress.

(** More calls on the stores of the scenario. *)
Module Calls.
Import Scenario.
Definition unknown_method : env := alone (call 7 A ["transfer"]).
Definition no_argument : env := alone (call 7 A []).
Definition sell_long_price : env := alone (call 7 A ["sell"; "123456789"]).
Definition sell_70 : env := alone (call 7 A ["sell"; "F"]).
Definition stop_sale : env := alone (call 7 A ["stopSelling"]).
Definition sell_no_price : env := alone (call 7 A ["sell"; ""]).
Definition buy_underpaid : env :=
  mk_env [] (call 7 B ["buy"]) [payment B A 99; asset_transfer E B 42 1].
Definition buy_four : env :=
  mk_env [] (call 7 B ["buy"])
    [payment B A 100; asset_transfer E B 42 1; payment B A 0].
Definition sell_pair : env := mk_env [] (call 7 A ["sell"; "d"]) [payment A B 0].
Definition stop_pair : env := mk_env [] (call 7 A ["stopSelling"]) [payment A B 0].
(** A byte string of 200 bytes, not an address. *)
Definition long_name : string :=
  Nat.iter 200 (String (Ascii.ascii_of_nat 97)) EmptyString.
Definition create_long_owner : env := alone (call 0 M ["*"; long_name; M]).
Definition early_buy : env :=
  mk_env [] (call 7 B ["buy"]) [payment B A 0; asset_transfer E B 42 1].
End Calls.

(** ** Expressions that only read *)

Create HintDb teal.

Lemma pure_Int n : pure (Int n).
Proof. intros e g. left. by eexists. Qed.

Lemma pure_Bytes s : pure (Bytes s).
Proof. intros e g. left. by eexists. Qed.

Lemma pure_hasValue m : pure (hasValue m).
Proof. intros e g. left. by eexists. Qed.

Lemma pure_group_size : pure Global.group_size.
Proof. intros e g. left. by eexists. Qed.

Lemma pure_Txn_field f : pure (Txn_field f).
Proof. intros e g. left. by eexists. Qed.

Lemma pure_Txn_sender : pure Txn_sender.
Proof. apply pure_Txn_field. Qed.

Lemma pure_Txn_application_id : pure Txn_application_id.
Proof. apply pure_Txn_field. Qed.

Lemma pure_Txn_application_args_length : pure Txn_application_args_length.
Proof. apply pure_Txn_field. Qed.

Lemma pure_Txn_application_args i : pure (Txn_application_args i).
Proof.
  intros e g. unfold Txn_application_args.
  destruct (application_args (Txn e) !! i); [left; by eexists | by right].
Qed.

Lemma pure_Gtxn i f : pure (Gtxn i f).
Proof.
  intros e g. unfold Gtxn.
  destruct (group e !! i); [left; by eexists | by right].
Qed.

Lemma pure_Gtxn_uint i f : pure (Gtxn_uint i f).
Proof. apply pure_Gtxn. Qed.

Lemma pure_Gtxn_bytes i f : pure (Gtxn_bytes i f).
Proof. apply pure_Gtxn. Qed.

Lemma pure_globalGet k : pure (App.globalGet k).
Proof. intros e g. left. by eexists. Qed.

(** Two reads followed by a total-or-failing combination of their values. *)
Lemma pure_bind2 (a b : Expr TealValue) (k : TealValue → TealValue → option TealValue) :
  pure a → pure b →
  pure (let* x := a in let* y := b in
        match k x y with Some v => ret v | None => fail end).
Proof.
  intros Ha Hb e g. unfold bind.
  destruct (Ha e g) as [[x ->] | ->]; [| by right].
  destruct (Hb e g) as [[y ->] | ->]; [| by right].
  destruct (k x y); [left; by eexists | by right].
Qed.

Lemma pure_Eq a b : pure a → pure b → pure (a == b).
Proof.
  intros Ha Hb e g.
  destruct (pure_bind2 a b (fun x y => of_bool <$> teal_eqb x y) Ha Hb e g) as [[v H] | H];
    [left; exists v | right]; rewrite <- H; unfold Eq_, bind;
    destruct (a e g); try done; destruct (b e g0); try done;
    by destruct (teal_eqb a0 a1).
Qed.

Lemma pure_Neq a b : pure a → pure b → pure (a != b).
Proof.
  intros Ha Hb e g.
  destruct (pure_bind2 a b (fun x y => (of_bool ∘ negb) <$> teal_eqb x y) Ha Hb e g)
    as [[v H] | H];
    [left; exists v | right]; rewrite <- H; unfold Neq, bind;
    destruct (a e g); try done; destruct (b e g0); try done;
    by destruct (teal_eqb a0 a1).
Qed.

Lemma pure_logic_op op a b : pure a → pure b → pure (logic_op op a b).
Proof.
  intros Ha Hb e g. unfold logic_op, bind.
  destruct (Ha e g) as [[x ->] | ->]; [| by right].
  destruct (Hb e g) as [[y ->] | ->]; [| by right].
  destruct x, y; try (by right). left. by eexists.
Qed.

Lemma pure_fold_logic op rest : ∀ a,
  pure a → Forall pure rest → pure (fold_left (logic_op op) rest a).
Proof.
  induction rest as [| b rest IH]; intros a Ha Hrest; [done |].
  inversion Hrest; subst. simpl. apply IH; [by apply pure_logic_op | done].
Qed.

Lemma pure_nary op args : Forall pure args → pure (nary op args).
Proof.
  destruct args as [| a rest]; intros H.
  - intros e g. by right.
  - inversion H; subst. by apply pure_fold_logic.
Qed.

Lemma pure_And args : Forall pure args → pure (And args).
Proof. apply pure_nary. Qed.

Lemma pure_Or args : Forall pure args → pure (Or args).
Proof. apply pure_nary. Qed.

Lemma pure_Btoi a : pure a → pure (Btoi a).
Proof.
  intros Ha e g. unfold Btoi, bind.
  destruct (Ha e g) as [[x ->] | ->]; [| by right].
  destruct x; [by right |].
  destruct (String.length b <=? 8)%nat; [left; by eexists | by right].
Qed.

#[export] Hint Resolve pure_Int pure_Bytes pure_hasValue pure_group_size
  pure_Txn_sender pure_Txn_application_id pure_Txn_application_args_length
  pure_Txn_application_args pure_Gtxn_uint pure_Gtxn_bytes pure_globalGet
  pure_Eq pure_Neq pure_logic_op pure_And pure_Or pure_Btoi : teal.
#[export] Hint Constructors Forall : teal.

(** ** Evaluating conditions *)

Lemma of_bool_truth b : negb (match of_bool b with VUint n => n =? 0 | _ => true end) = b.
Proof. by destruct b. Qed.

Lemma Eq_val a b x y r e g :
  a e g = Next x g → b e g = Next y g → teal_eqb x y = Some r →
  (a == b) e g = Next (of_bool r) g.
Proof. intros Ha Hb Hr. unfold Eq_, bind. by rewrite Ha, Hb, Hr. Qed.

Lemma Neq_val a b x y r e g :
  a e g = Next x g → b e g = Next y g → teal_eqb x y = Some r →
  (a != b) e g = Next (of_bool (negb r)) g.
Proof. intros Ha Hb Hr. unfold Neq, bind. by rewrite Ha, Hb, Hr. Qed.

Lemma logic_op_val op a b p q e g :
  a e g = Next (of_bool p) g → b e g = Next (of_bool q) g →
  logic_op op a b e g = Next (of_bool (op p q)) g.
Proof.
  intros Ha Hb. unfold logic_op, bind. rewrite Ha, Hb.
  by destruct p, q.
Qed.

Lemma If_val {A} c (t f : Expr A) r e g :
  c e g = Next (of_bool r) g →
  If c t f e g = if r then t e g else f e g.
Proof. intros Hc. unfold If, bind. rewrite Hc. by destruct r. Qed.

Lemma Gtxn_val i f t e g :
  group e !! i = Some t → Gtxn i f e g = Next (f t) g.
Proof. intros H. unfold Gtxn. by rewrite H. Qed.

Lemma Gtxn_none i f e g :
  group e !! i = None → Gtxn i f e g = Fail g.
Proof. intros H. unfold Gtxn. by rewrite H. Qed.

Lemma Return_Int {A} n e g : @Return A (Int n) e g = Halt n g.
Proof. done. Qed.

(** Computes the value of a condition whose reads all succeed; the stored
    fields are looked up among the hypotheses. *)
Ltac teal_eqb :=
  repeat match goal with
         | H : field _ _ = _ |- _ => rewrite H
         end;
  reflexivity.

Ltac teal_val :=
  lazymatch goal with
  | |- fold_left _ _ _ _ _ = _ => simpl fold_left; teal_val
  | |- And _ _ _ = _ => unfold And, nary; teal_val
  | |- Or _ _ _ = _ => unfold Or, nary; teal_val
  | |- logic_op _ _ _ _ _ = _ => eapply logic_op_val; teal_val
  | |- (_ == _) _ _ = _ => eapply Eq_val; [teal_val | teal_val | teal_eqb]
  | |- (_ != _) _ _ = _ => eapply Neq_val; [teal_val | teal_val | teal_eqb]
  | |- Gtxn_uint _ _ _ _ = _ => eapply Gtxn_val; eassumption
  | |- Gtxn_bytes _ _ _ _ = _ => eapply Gtxn_val; eassumption
  | |- _ => reflexivity
  end.

(** ** Storing a value *)

Lemma address_length a : String.length (addr_bytes a) = 32%nat.
Proof. destruct a as [b Hb]. simpl. by apply bool_decide_eq_true in Hb. Qed.

Lemma sender_length t : String.length (sender t) = 32%nat.
Proof. apply address_length. Qed.

(** The owner key takes the sender of any transaction. *)
Lemma storable_owner_sender t :
  storable Variables.asa_owner (VBytes (sender t)) = true.
Proof. unfold storable. by rewrite sender_length. Qed.

(** Under the keys of the contract, a byte string is stored when the key and
    the string take at most 128 bytes together. *)
Lemma storable_bytes k b :
  (String.length k ≤ 64)%nat →
  storable k (VBytes b) = (String.length b <=? 128 - String.length k)%nat.
Proof.
  intros Hk. unfold storable, MaxAppKeyLen, MaxAppBytesValueLen, MaxAppSumKeyValueLens.
  rewrite (proj2 (Nat.leb_le _ _) Hk). simpl andb.
  destruct (Nat.leb_spec (String.length b) (128 - String.length k));
    destruct (Nat.leb_spec (String.length b) 128);
    destruct (Nat.leb_spec (String.length k + String.length b) 128);
    simpl; try done; lia.
Qed.

(** ** The handlers on a typed store *)

Section Typed.
Variables (e : env) (g : gmap string TealValue).

Lemma sell_typed st owner :
  field g Variables.app_state = VUint st →
  field g Variables.asa_owner = VBytes owner →
  sell e g =
    if (Z.of_nat (length (group e)) =? 1)
       && ((st =? AppState.active) || (st =? AppState.selling_in_progress))
       && bool_decide (sender (Txn e) = owner)
       && (Z.of_nat (length (application_args (Txn e))) =? 2)
    then
      match application_args (Txn e) !! 1%nat with
      | Some a =>
          if (String.length a <=? 8)%nat
          then Halt 1 (<[Variables.app_state := VUint AppState.selling_in_progress]>
                         (<[Variables.asa_price := VUint (btoi_acc 0 a)]> g))
          else Fail g
      | None => Fail g
      end
    else Halt 0 g.
Proof.
  intros Hst Hown. unfold sell.
  erewrite If_val by teal_val.
  destruct (_ && _) eqn:Hc; [| done].
  cbv [Seq App.globalPut Btoi bind Txn_application_args].
  destruct (application_args (Txn e) !! 1%nat) as [a |]; [| done].
  by destruct (String.length a <=? 8)%nat.
Qed.

Lemma stop_selling_typed st owner :
  field g Variables.app_state = VUint st →
  field g Variables.asa_owner = VBytes owner →
  stop_selling e g =
    if (Z.of_nat (length (group e)) =? 1)
       && bool_decide (sender (Txn e) = owner)
       && negb (st =? AppState.not_initialized)
    then Halt 1 (<[Variables.app_state := VUint AppState.active]> g)
    else Halt 0 g.
Proof.
  intros Hst Hown. unfold stop_selling.
  erewrite If_val by teal_val.
  by destruct (_ && _).
Qed.

Lemma initialize_escrow_typed admin :
  field g Variables.app_admin = VBytes admin →
  initialize_escrow e g =
    if bool_decide (is_Some (g !! Variables.escrow_address))
       || negb (bool_decide (admin = sender (Txn e)))
       || negb (Z.of_nat (length (group e)) =? 1)
    then Halt 0 g
    else
      match application_args (Txn e) !! 1%nat with
      | Some a =>
          if storable Variables.escrow_address (VBytes a)
          then Halt 1 (<[Variables.app_state := VUint AppState.active]>
                         (<[Variables.escrow_address := VBytes a]> g))
          else Fail g
      | None => Fail g
      end.
Proof.
  intros Hadm. unfold initialize_escrow.
  change (bind (App.globalGetEx ?k) ?f e g) with (f (g !! k) e g). cbv beta.
  erewrite If_val by teal_val.
  destruct (_ || _); [done |].
  cbv [Seq App.globalPut bind Txn_application_args].
  destruct (application_args (Txn e) !! 1%nat) as [a |]; [| done].
  by destruct (storable Variables.escrow_address (VBytes a)).
Qed.

Lemma buy_typed r0 r1 r2 st owner price escrow id :
  group e !! 0%nat = Some r0 →
  group e !! 1%nat = Some r1 →
  group e !! 2%nat = Some r2 →
  field g Variables.app_state = VUint st →
  field g Variables.asa_owner = VBytes owner →
  field g Variables.asa_price = VUint price →
  field g Variables.escrow_address = VBytes escrow →
  field g Variables.asa_id = VUint id →
  buy e g =
    if (Z.of_nat (length (group e)) =? 3)
       && (st =? AppState.selling_in_progress)
       && ((type_enum r1 =? TxnType.Payment)
           && bool_decide (receiver r1 = owner)
           && (amount r1 =? price)
           && bool_decide (sender r1 = sender r0)
           && bool_decide (sender r1 = asset_receiver r2))
       && ((type_enum r2 =? TxnType.AssetTransfer)
           && bool_decide (sender r2 = escrow)
           && (xfer_asset r2 =? id)
           && (asset_amount r2 =? 1))
    then Halt 1 (<[Variables.app_state := VUint AppState.active]>
                   (<[Variables.asa_owner := VBytes (sender r0)]> g))
    else Halt 0 g.
Proof.
  intros H0 H1 H2 Hst Hown Hprice Hesc Hid. unfold buy.
  erewrite If_val by teal_val.
  destruct (_ && _); [| done].
  cbv [Seq App.globalPut bind Gtxn_bytes Gtxn]. rewrite H0.
  by rewrite storable_owner_sender.
Qed.
End Typed.

(** ** Conditions that fail or do not hold *)

Lemma Eq_fail_l a b e g : a e g = Fail g → (a == b) e g = Fail g.
Proof. intros H. unfold Eq_, bind. by rewrite H. Qed.

Lemma Eq_fail_r a b e g : pure a → b e g = Fail g → (a == b) e g = Fail g.
Proof.
  intros Ha H. unfold Eq_, bind.
  destruct (Ha e g) as [[x ->] | ->]; [| done]. by rewrite H.
Qed.

Lemma logic_op_fail_l op a b e g : a e g = Fail g → logic_op op a b e g = Fail g.
Proof. intros H. unfold logic_op, bind. by rewrite H. Qed.

Lemma logic_op_fail_r op a b e g :
  pure a → b e g = Fail g → logic_op op a b e g = Fail g.
Proof.
  intros Ha H. unfold logic_op, bind.
  destruct (Ha e g) as [[x ->] | ->]; [| done]. by rewrite H.
Qed.

Lemma If_fail {A} c (t f : Expr A) e g : c e g = Fail g → If c t f e g = Fail g.
Proof. intros H. unfold If, bind. by rewrite H. Qed.

Lemma and_falsy_l a b e g :
  falsy a e g → pure b → falsy (logic_op andb a b) e g.
Proof.
  intros [Ha | Ha] Hb; unfold falsy, logic_op, bind; rewrite Ha; [| by right].
  destruct (Hb e g) as [[y ->] | ->]; [| by right].
  destruct y; [by left | by right].
Qed.

Lemma and_falsy_r a b e g :
  pure a → falsy b e g → falsy (logic_op andb a b) e g.
Proof.
  intros Ha [Hb | Hb]; unfold falsy, logic_op, bind;
    (destruct (Ha e g) as [[x ->] | ->]; [| by right]); rewrite Hb; [| by right].
  destruct x; [| by right]. left. by rewrite andb_false_r.
Qed.

Lemma If_falsy {A} c (t f : Expr A) e g :
  falsy c e g → If c t f e g = f e g ∨ If c t f e g = Fail g.
Proof. intros [H | H]; unfold If, bind; rewrite H; [by left | by right]. Qed.

Lemma If_pure_cases {A} c (t f : Expr A) e g :
  pure c →
  If c t f e g = Fail g ∨ If c t f e g = t e g ∨ If c t f e g = f e g.
Proof.
  intros Hc. unfold If, bind.
  destruct (Hc e g) as [[x ->] | ->]; [| by left].
  destruct x; [| by left]. destruct (n =? 0); auto.
Qed.

(** ** What a handler can do to the store, whatever the store holds *)

Lemma sell_cases e g :
  sell e g = Fail g ∨ sell e g = Halt 0 g
  ∨ ∃ p, sell e g = Halt 1 (<[Variables.app_state := VUint AppState.selling_in_progress]>
                              (<[Variables.asa_price := VUint p]> g)).
Proof.
  unfold sell.
  match goal with
  | |- context [If ?c ?t ?f] =>
      destruct (If_pure_cases c t f e g) as [-> | [-> | ->]];
        [auto 20 with teal | auto | | auto]
  end.
  cbv [Seq App.globalPut Btoi bind Txn_application_args].
  destruct (application_args (Txn e) !! 1%nat) as [a |]; [| auto].
  destruct (String.length a <=? 8)%nat; [| auto].
  right. right. eexists. reflexivity.
Qed.

Lemma buy_cases e g :
  buy e g = Fail g ∨ buy e g = Halt 0 g
  ∨ ∃ r0, group e !! 0%nat = Some r0
          ∧ buy e g = Halt 1 (<[Variables.app_state := VUint AppState.active]>
                                (<[Variables.asa_owner := VBytes (sender r0)]> g)).
Proof.
  unfold buy.
  match goal with
  | |- context [If ?c ?t ?f] =>
      destruct (If_pure_cases c t f e g) as [-> | [-> | ->]];
        [auto 30 with teal | auto | | auto]
  end.
  cbv [Seq App.globalPut bind Gtxn_bytes Gtxn].
  destruct (group e !! 0%nat) as [r0 |]; [| auto].
  rewrite storable_owner_sender.
  right. right. by exists r0.
Qed.

Lemma stop_selling_cases e g :
  stop_selling e g = Fail g ∨ stop_selling e g = Halt 0 g
  ∨ stop_selling e g = Halt 1 (<[Variables.app_state := VUint AppState.active]> g).
Proof.
  unfold stop_selling.
  match goal with
  | |- context [If ?c ?t ?f] =>
      destruct (If_pure_cases c t f e g) as [-> | [-> | ->]];
        [auto 20 with teal | auto | | auto]
  end.
  auto.
Qed.

Lemma initialize_escrow_cases e g :
  initialize_escrow e g = Fail g ∨ initialize_escrow e g = Halt 0 g
  ∨ ∃ a, g !! Variables.escrow_address = None
         ∧ application_args (Txn e) !! 1%nat = Some a
         ∧ initialize_escrow e g =
             Halt 1 (<[Variables.app_state := VUint AppState.active]>
                       (<[Variables.escrow_address := VBytes a]> g)).
Proof.
  unfold initialize_escrow.
  change (bind (App.globalGetEx ?k) ?f e g) with (f (g !! k) e g). cbv beta.
  destruct (g !! Variables.escrow_address) as [v |] eqn:Hesc.
  - assert (Hna : pure (App.globalGet Variables.app_admin != Txn_sender))
      by auto with teal.
    unfold If, Or, nary, fold_left, logic_op, bind, hasValue, ret.
    destruct (Hna e g) as [[x ->] | ->]; [| auto].
    destruct x; [| auto]. unfold Neq, bind, Global.group_size, Int, ret. simpl. auto.
  - match goal with
    | |- context [If ?c ?t ?f] =>
        destruct (If_pure_cases c t f e g) as [-> | [-> | ->]];
          [auto 20 with teal | auto | auto |]
    end.
    cbv [Seq App.globalPut bind Txn_application_args].
    destruct (application_args (Txn e) !! 1%nat) as [a |] eqn:Ha; [| auto].
    destruct (storable Variables.escrow_address (VBytes a)); [| auto].
    right. right. by exists a.
Qed.

(** ** Creation and dispatch *)

Lemma app_initialization_eq e g :
  app_initialization e g =
    match application_args (Txn e) with
    | [a0; a1; a2] =>
        let g1 := <[Variables.app_state := VUint AppState.not_initialized]> g in
        if (String.length a0 <=? 8)%nat
        then
          let g2 := <[Variables.asa_id := VUint (btoi_acc 0 a0)]> g1 in
          if storable Variables.asa_owner (VBytes a1)
          then
            let g3 := <[Variables.asa_owner := VBytes a1]> g2 in
            if storable Variables.app_admin (VBytes a2)
            then Halt 1 (<[Variables.app_admin := VBytes a2]> g3)
            else Fail g3
          else Fail g2
        else Fail g1
    | _ => Fail g
    end.
Proof.
  unfold app_initialization.
  cbv [Seq Assert bind Eq_ Txn_application_args_length Txn_field Int ret teal_eqb of_bool].
  destruct (application_args (Txn e)) as [| a0 [| a1 [| a2 [| a3 rest]]]] eqn:Hargs;
    try reflexivity.
  - cbv [App.globalPut Btoi bind Txn_application_args Int ret Return].
    rewrite Hargs. simpl.
    destruct (String.length a0 <=? 8)%nat; [| done].
    destruct (storable Variables.asa_owner (VBytes a1)); [| done].
    by destruct (storable Variables.app_admin (VBytes a2)).
  - destruct (Z.of_nat (length (a0 :: a1 :: a2 :: a3 :: rest)) =? 3) eqn:Hlen; [| done].
    apply Z.eqb_eq in Hlen. simpl length in Hlen. lia.
Qed.

Lemma application_start_creation e g :
  application_id (Txn e) = 0 →
  application_start e g = app_initialization e g.
Proof.
  intros Hid. unfold application_start. simpl Cond.
  erewrite If_val by teal_val. by rewrite Hid.
Qed.

(** A call to the existing application reaches at most one handler, selected by
    its first argument; a call with no argument, or with an unknown one, fails. *)
Lemma application_start_call e g :
  application_id (Txn e) ≠ 0 →
  application_start e g =
    match application_args (Txn e) with
    | [] => Fail g
    | m :: _ =>
        if bool_decide (m = AppMethods.buy) then buy e g
        else if bool_decide (m = AppMethods.initialize_escrow) then initialize_escrow e g
        else if bool_decide (m = AppMethods.stop_selling) then stop_selling e g
        else if bool_decide (m = AppMethods.sell) then sell e g
        else Fail g
    end.
Proof.
  intros Hid. unfold application_start. simpl Cond.
  erewrite If_val by teal_val.
  destruct (application_id (Txn e) =? 0) eqn:Hz; [apply Z.eqb_eq in Hz; done |].
  destruct (application_args (Txn e)) as [| m rest] eqn:Hargs.
  - apply If_fail, Eq_fail_l. unfold Txn_application_args. by rewrite Hargs.
  - assert (Harg : Txn_application_args 0 e g = Next (VBytes m) g)
      by (unfold Txn_application_args; by rewrite Hargs).
    repeat (erewrite If_val by (eapply Eq_val; [exact Harg | reflexivity | reflexivity]);
            case_bool_decide; [done |]).
    done.
Qed.

Lemma application_start_dispatch e g :
  application_id (Txn e) ≠ 0 →
  application_start e g = Fail g ∨ ∃ a, application_start e g = handler a e g.
Proof.
  intros Hid. rewrite application_start_call by done.
  destruct (application_args (Txn e)) as [| m rest]; [by left |].
  repeat case_bool_decide; eauto;
    right; [by exists Buy | by exists InitializeEscrow | by exists StopSelling | by exists Sell].
Qed.

(** ** Before the escrow is initialised *)

Ltac use_If_falsy :=
  lazymatch goal with
  | |- context [If ?c ?t ?f ?e ?g] =>
      let H := fresh in
      enough (H : falsy c e g)
        by (destruct (If_falsy c t f e g H) as [-> | ->]; auto)
  end.

Ltac falsy_by_val :=
  lazymatch goal with
  | |- falsy ?c ?e ?g =>
      let H := fresh in
      eassert (H : c e g = Next (of_bool _) g) by teal_val;
      left; rewrite H; reflexivity
  end.

Lemma sell_not_initialized e g :
  field g Variables.app_state = VUint AppState.not_initialized →
  sell e g = Halt 0 g ∨ sell e g = Fail g.
Proof.
  intros Hst. unfold sell. use_If_falsy.
  unfold And, nary. simpl fold_left.
  apply and_falsy_l; [| auto with teal].
  apply and_falsy_l; [| auto with teal].
  apply and_falsy_r; [auto with teal |].
  falsy_by_val.
Qed.

Lemma buy_not_initialized e g :
  field g Variables.app_state = VUint AppState.not_initialized →
  buy e g = Halt 0 g ∨ buy e g = Fail g.
Proof.
  intros Hst. unfold buy. use_If_falsy.
  unfold And at 1. unfold nary. simpl fold_left.
  apply and_falsy_l; [| auto 20 with teal].
  apply and_falsy_l; [| auto 20 with teal].
  apply and_falsy_r; [auto with teal |].
  falsy_by_val.
Qed.

Lemma stop_selling_not_initialized e g :
  field g Variables.app_state = VUint AppState.not_initialized →
  stop_selling e g = Halt 0 g ∨ stop_selling e g = Fail g.
Proof.
  intros Hst. unfold stop_selling. use_If_falsy.
  unfold And, nary. simpl fold_left.
  apply and_falsy_r; [auto 20 with teal |].
  falsy_by_val.
Qed.

(** ** Outcomes and verdicts *)

Lemma handler_cases a e g :
  handler a e g = Fail g ∨ handler a e g = Halt 0 g
  ∨ ∃ g', handler a e g = Halt 1 g'.
Proof.
  destruct a; simpl.
  - destruct (initialize_escrow_cases e g) as [| [| (x & _ & _ & ?)]]; eauto.
  - destruct (sell_cases e g) as [| [| [x ?]]]; eauto.
  - destruct (buy_cases e g) as [| [| (x & _ & ?)]]; eauto.
  - destruct (stop_selling_cases e g) as [| [|]]; eauto.
Qed.

Lemma run_Fail p e g g' : p e g = Fail g' → run p e g = Aborted.
Proof. intros H. unfold run. by rewrite H. Qed.

Lemma run_Halt0 p e g g' : p e g = Halt 0 g' → run p e g = Rejected.
Proof. intros H. unfold run. by rewrite H. Qed.

Lemma run_Halt1 p e g g' : p e g = Halt 1 g' → run p e g = Approved g'.
Proof. intros H. unfold run. by rewrite H. Qed.

Lemma commit_Fail p e g g' : p e g = Fail g' → commit p e g = g.
Proof. intros H. unfold commit. by rewrite (run_Fail _ _ _ _ H). Qed.

Lemma commit_Halt0 p e g g' : p e g = Halt 0 g' → commit p e g = g.
Proof. intros H. unfold commit. by rewrite (run_Halt0 _ _ _ _ H). Qed.

Lemma commit_Halt1 p e g g' : p e g = Halt 1 g' → commit p e g = g'.
Proof. intros H. unfold commit. by rewrite (run_Halt1 _ _ _ _ H). Qed.

(** A call that is not approved leaves the store as it was, and did not
    write to it before stopping. *)
Lemma handler_unapproved a e g :
  (∃ g', handler a e g = Halt 1 g' ∧ run (handler a) e g = Approved g')
  ∨ (store_of (handler a e g) = g ∧ commit (handler a) e g = g
     ∧ (run (handler a) e g = Rejected ∨ run (handler a) e g = Aborted)).
Proof.
  destruct (handler_cases a e g) as [H | [H | [g' H]]].
  - right. rewrite (commit_Fail _ _ _ _ H), (run_Fail _ _ _ _ H), H. auto.
  - right. rewrite (commit_Halt0 _ _ _ _ H), (run_Halt0 _ _ _ _ H), H. auto.
  - left. exists g'. by rewrite (run_Halt1 _ _ _ _ H).
Qed.

Lemma commit_approval_program e g :
  application_id (Txn e) ≠ 0 →
  commit approval_program e g = g
  ∨ ∃ a, commit approval_program e g = commit (handler a) e g.
Proof.
  intros Hid. unfold approval_program.
  destruct (application_start_dispatch e g Hid) as [H | [a H]].
  - left. by apply (commit_Fail _ _ _ _ H).
  - right. exists a. unfold commit, run. by rewrite H.
Qed.

Example scenario_created :
  Scenario.listing Scenario.s0
  = (None, Some (VUint 42), None, Some (VBytes Scenario.A), Some (VBytes Scenario.M),
     Some (VUint 0)).
Proof. vm_compute. reflexivity. Qed.

Example scenario_initialized :
  Scenario.listing Scenario.s1
  = (Some (VBytes Scenario.E), Some (VUint 42), None, Some (VBytes Scenario.A),
     Some (VBytes Scenario.M), Some (VUint 1)).
Proof. vm_compute. reflexivity. Qed.

Example scenario_listed :
  Scenario.listing Scenario.s2
  = (Some (VBytes Scenario.E), Some (VUint 42), Some (VUint 100), Some (VBytes Scenario.A),
     Some (VBytes Scenario.M), Some (VUint 2)).
Proof. vm_compute. reflexivity. Qed.

Example scenario_bought :
  Scenario.listing Scenario.s3
  = (Some (VBytes Scenario.E), Some (VUint 42), Some (VUint 100), Some (VBytes Scenario.B),
     Some (VBytes Scenario.M), Some (VUint 1)).
Proof. vm_compute. reflexivity. Qed.

Example scenario_stopped :
  Scenario.listing Scenario.s5
  = (Some (VBytes Scenario.E), Some (VUint 42), Some (VUint 50), Some (VBytes Scenario.B),
     Some (VBytes Scenario.M), Some (VUint 1)).
Proof. vm_compute. reflexivity. Qed.

Lemma scenario_reachable : reachable Scenario.s2.
Proof.
  unfold Scenario.s2, Scenario.s1.
  apply reachable_call; [apply reachable_call |]; [| done | done].
  by apply (reachable_created Scenario.create).
Qed.

(** ** Invariants of the listing record *)

Lemma well_typed_insert k v g :
  well_typed g = true → fits k v = true → well_typed (<[k := v]> g) = true.
Proof.
  unfold well_typed, fits. intros Hg Hv.
  repeat (apply andb_prop in Hg as [Hg ?]).
  rewrite !lookup_insert.
  repeat case_decide; subst; simpl in *; destruct_or?; simplify_eq;
    repeat (apply andb_true_intro; split); try done;
    by destruct v.
Qed.

Lemma well_typed_fields g :
  well_typed g = true →
  ∃ st id owner admin price,
    field g Variables.app_state = VUint st
    ∧ field g Variables.asa_id = VUint id
    ∧ field g Variables.asa_owner = VBytes owner
    ∧ field g Variables.app_admin = VBytes admin
    ∧ field g Variables.asa_price = VUint price
    ∧ (g !! Variables.escrow_address = None
       ∨ ∃ escrow, g !! Variables.escrow_address = Some (VBytes escrow)).
Proof.
  unfold well_typed, field. intros Hg.
  repeat (apply andb_prop in Hg as [Hg ?]).
  destruct (g !! Variables.app_state) as [[st |] |]; try done.
  destruct (g !! Variables.asa_id) as [[id |] |]; try done.
  destruct (g !! Variables.asa_owner) as [[| owner] |]; try done.
  destruct (g !! Variables.app_admin) as [[| admin] |]; try done.
  exists st, id, owner, admin.
  destruct (g !! Variables.asa_price) as [[price |] |]; try done;
    [exists price | exists 0];
    (destruct (g !! Variables.escrow_address) as [[| escrow] |]; try done;
     repeat split; eauto).
Qed.

Lemma listing_inv_handler a e g :
  listing_inv g → listing_inv (commit (handler a) e g).
Proof.
  intros (Hwt & st & Hst & Hrange & Hesc).
  assert (Hinv : listing_inv g) by (split; eauto).
  destruct a; simpl.
  - destruct (initialize_escrow_cases e g) as [H | [H | (x & Hnone & _ & H)]].
    + by rewrite (commit_Fail _ _ _ _ H).
    + by rewrite (commit_Halt0 _ _ _ _ H).
    + rewrite (commit_Halt1 _ _ _ _ H). split.
      * by repeat apply well_typed_insert.
      * exists AppState.active. unfold field. rewrite lookup_insert_eq.
        repeat split; auto; try done.
        rewrite lookup_insert_ne, lookup_insert_eq by done. done.
  - destruct (Z.eq_dec st 0) as [-> | Hne].
    { destruct (sell_not_initialized e g Hst) as [H | H];
        [by rewrite (commit_Halt0 _ _ _ _ H) | by rewrite (commit_Fail _ _ _ _ H)]. }
    destruct (sell_cases e g) as [H | [H | (x & H)]].
    + by rewrite (commit_Fail _ _ _ _ H).
    + by rewrite (commit_Halt0 _ _ _ _ H).
    + rewrite (commit_Halt1 _ _ _ _ H). split.
      * by repeat apply well_typed_insert.
      * exists AppState.selling_in_progress. unfold field. rewrite lookup_insert_eq.
        repeat split; auto; try done.
        rewrite !lookup_insert_ne by done. intros Hn. apply Hesc in Hn. done.
  - destruct (Z.eq_dec st 0) as [-> | Hne].
    { destruct (buy_not_initialized e g Hst) as [H | H];
        [by rewrite (commit_Halt0 _ _ _ _ H) | by rewrite (commit_Fail _ _ _ _ H)]. }
    destruct (buy_cases e g) as [H | [H | (x & _ & H)]].
    + by rewrite (commit_Fail _ _ _ _ H).
    + by rewrite (commit_Halt0 _ _ _ _ H).
    + rewrite (commit_Halt1 _ _ _ _ H). split.
      * by repeat apply well_typed_insert.
      * exists AppState.active. unfold field. rewrite lookup_insert_eq.
        repeat split; auto; try done.
        rewrite !lookup_insert_ne by done. intros Hn. apply Hesc in Hn. done.
  - destruct (Z.eq_dec st 0) as [-> | Hne].
    { destruct (stop_selling_not_initialized e g Hst) as [H | H];
        [by rewrite (commit_Halt0 _ _ _ _ H) | by rewrite (commit_Fail _ _ _ _ H)]. }
    destruct (stop_selling_cases e g) as [H | [H | H]].
    + by rewrite (commit_Fail _ _ _ _ H).
    + by rewrite (commit_Halt0 _ _ _ _ H).
    + rewrite (commit_Halt1 _ _ _ _ H). split.
      * by repeat apply well_typed_insert.
      * exists AppState.active. unfold field. rewrite lookup_insert_eq.
        repeat split; auto; try done.
        rewrite !lookup_insert_ne by done. intros Hn. apply Hesc in Hn. done.
Qed.

Lemma listing_inv_created e g :
  application_id (Txn e) = 0 →
  run approval_program e ∅ = Approved g → listing_inv g.
Proof.
  intros Hid. unfold run, approval_program.
  rewrite application_start_creation, app_initialization_eq by done.
  destruct (application_args (Txn e)) as [| a0 [| a1 [| a2 [| a3 rest]]]]; try done.
  destruct (String.length a0 <=? 8)%nat; [| done]. cbv zeta.
  destruct (storable Variables.asa_owner (VBytes a1)); [| done].
  destruct (storable Variables.app_admin (VBytes a2)); [| done].
  simpl. intros [= <-]. split; [by vm_compute |].
  exists AppState.not_initialized. repeat split; auto; by vm_compute.
Qed.

(** Every store the contract can be in satisfies the invariant. *)
Theorem reachable_listing_inv g : reachable g → listing_inv g.
Proof.
  induction 1 as [e g Hid Hrun | e g _ IH Hid].
  - by eapply listing_inv_created.
  - destruct (commit_approval_program e g Hid) as [-> | [a ->]]; [done |].
    by apply listing_inv_handler.
Qed.

(** Once the state has left [NotInitialized], the store is typed and the
    escrow address is set. *)
Corollary reachable_initialized g :
  reachable g →
  field g Variables.app_state ≠ VUint AppState.not_initialized →
  well_typed g = true ∧ is_Some (g !! Variables.escrow_address).
Proof.
  intros Hreach Hne.
  destruct (reachable_listing_inv g Hreach) as (Hwt & st & Hst & _ & Hesc).
  split; [done |].
  destruct (g !! Variables.escrow_address) as [v |] eqn:Hv; [by eexists |].
  exfalso. apply Hne. rewrite Hst. f_equal. by apply Hesc.
Qed.

(** ** buy *)

Lemma buy_ok_iff e g r0 r1 r2 st owner price escrow id :
  group e !! 0%nat = Some r0 →
  group e !! 1%nat = Some r1 →
  group e !! 2%nat = Some r2 →
  field g Variables.app_state = VUint st →
  field g Variables.asa_owner = VBytes owner →
  field g Variables.asa_price = VUint price →
  field g Variables.escrow_address = VBytes escrow →
  field g Variables.asa_id = VUint id →
  (Z.of_nat (length (group e)) =? 3)
  && (st =? AppState.selling_in_progress)
  && ((type_enum r1 =? TxnType.Payment)
      && bool_decide (receiver r1 = owner)
      && (amount r1 =? price)
      && bool_decide (sender r1 = sender r0)
      && bool_decide (sender r1 = asset_receiver r2))
  && ((type_enum r2 =? TxnType.AssetTransfer)
      && bool_decide (sender r2 = escrow)
      && (xfer_asset r2 =? id)
      && (asset_amount r2 =? 1)) = true
  ↔ Spec.buy_ok e g.
Proof.
  intros H0 H1 H2 Hst Hown Hprice Hesc Hid.
  rewrite !andb_true_iff, !Z.eqb_eq, !bool_decide_eq_true. split.
  - intros [[[Hlen ->] ((((? & <-) & <-) & ?) & ?)] (((? & <-) & <-) & ?)].
    exists r0, r1, r2.
    destruct (group e) as [| x0 [| x1 [| x2 [| x3 rest]]]]; simplify_eq/=; [| lia].
    by repeat split.
  - intros (x0 & x1 & x2 & Hg & Hs & ? & Ho & Hp & ? & ? & ? & He & Hi & ?).
    rewrite Hg in *. simplify_eq/=.
    rewrite Hst in Hs. rewrite Hown in Ho. rewrite Hprice in Hp.
    rewrite Hesc in He. rewrite Hid in Hi. simplify_eq.
    by repeat split.
Qed.

Lemma buy_short_group e g :
  (length (group e) < 3)%nat → buy e g = Fail g.
Proof.
  intros Hlen. unfold buy.
  apply If_fail. unfold And at 1. unfold nary. simpl fold_left.
  apply logic_op_fail_r; [auto 20 with teal |].
  unfold And, nary. simpl fold_left.
  do 3 apply logic_op_fail_l. apply Eq_fail_l, Gtxn_none.
  by apply lookup_ge_None_2; lia.
Qed.

Lemma field_bytes_lookup g k b : g !! k = Some (VBytes b) → field g k = VBytes b.
Proof. intros H. unfold field. by rewrite H. Qed.

Lemma buy_accepts e g :
  Spec.buy_ok e g →
  ∃ r0, group e !! 0%nat = Some r0
        ∧ buy e g = Halt 1 (<[Variables.app_state := VUint AppState.active]>
                              (<[Variables.asa_owner := VBytes (sender r0)]> g)).
Proof.
  intros Hok.
  pose proof Hok as (r0 & r1 & r2 & Hg & Hst & _ & Hown & Hprice & _ & _ & _ & Hesc & Hid & _).
  assert (H0 : group e !! 0%nat = Some r0) by (by rewrite Hg).
  assert (H1 : group e !! 1%nat = Some r1) by (by rewrite Hg).
  assert (H2 : group e !! 2%nat = Some r2) by (by rewrite Hg).
  exists r0. split; [done |].
  rewrite (buy_typed e g r0 r1 r2 _ _ _ _ _ H0 H1 H2 Hst Hown Hprice Hesc Hid).
  by rewrite (proj2 (buy_ok_iff e g r0 r1 r2 _ _ _ _ _
                      H0 H1 H2 Hst Hown Hprice Hesc Hid) Hok).
Qed.

Lemma buy_rejects e g :
  well_typed g = true →
  is_Some (g !! Variables.escrow_address) →
  ¬ Spec.buy_ok e g → (3 ≤ length (group e))%nat →
  buy e g = Halt 0 g.
Proof.
  intros Hwt [x Hx] Hnok Hlen.
  destruct (well_typed_fields g Hwt)
    as (st & id & owner & admin & price & Hst & Hid & Hown & _ & Hprice & [Hn | [escrow Hesc]]);
    [congruence |].
  apply field_bytes_lookup in Hesc.
  destruct (group e) as [| r0 [| r1 [| r2 rest]]] eqn:Hg; simpl in Hlen; try lia.
  rewrite (buy_typed e g r0 r1 r2 st owner price escrow id) by (by rewrite ?Hg).
  destruct (_ && _) eqn:Hc; [| done].
  exfalso. apply Hnok.
  apply (buy_ok_iff e g r0 r1 r2 st owner price escrow id); try done; by rewrite Hg.
Qed.


(** C1.  The code misses the claim on a group of fewer than three records.
    buy tests the group size and returns 0 when its conditions do not hold, as
    it does on a group of four records; but [And] evaluates the reads of
    records 1 and 2 whatever the size test gives, so a buy evaluated alone in
    its group, while the asset is on sale, is not rejected: the evaluation
    fails. *)
Theorem buy_singleton_group_aborts :
  field Scenario.s2 Variables.app_state = VUint AppState.selling_in_progress
  ∧ length (group Scenario.buy_alone) ≠ 3%nat
  ∧ run buy Scenario.buy_alone Scenario.s2 = Aborted
  ∧ run buy Scenario.buy_alone Scenario.s2 ≠ Rejected
  ∧ length (group Calls.buy_four) ≠ 3%nat
  ∧ run buy Calls.buy_four Scenario.s2 = Rejected.
Proof. by vm_compute. Qed.

(** ** Which keys a handler writes *)

(** Closes [k ∉ writes a] for a given key and action. *)
Ltac not_written :=
  simpl; rewrite ?not_elem_of_cons; repeat split; (done || apply not_elem_of_nil).

Lemma handler_frame a e g k :
  k ∉ writes a → store_of (handler a e g) !! k = g !! k.
Proof.
  intros Hk. destruct a; simpl in *;
    repeat (apply not_elem_of_cons in Hk as [? Hk]).
  - destruct (initialize_escrow_cases e g) as [-> | [-> | (x & _ & _ & ->)]]; try done.
    simpl. by rewrite !lookup_insert_ne.
  - destruct (sell_cases e g) as [-> | [-> | (x & ->)]]; try done.
    simpl. by rewrite !lookup_insert_ne.
  - destruct (buy_cases e g) as [-> | [-> | (x & _ & ->)]]; try done.
    simpl. by rewrite !lookup_insert_ne.
  - destruct (stop_selling_cases e g) as [-> | [-> | ->]]; try done.
    simpl. by rewrite !lookup_insert_ne.
Qed.

Lemma commit_frame a e g k :
  k ∉ writes a → commit (handler a) e g !! k = g !! k.
Proof.
  intros Hk.
  destruct (handler_unapproved a e g) as [(g' & H & _) | (_ & -> & _)]; [| done].
  rewrite (commit_Halt1 _ _ _ _ H). rewrite <- (handler_frame a e g k Hk). by rewrite H.
Qed.

(** ** initializeEscrow *)

Lemma initialize_escrow_ok_iff e g admin :
  field g Variables.app_admin = VBytes admin →
  bool_decide (is_Some (g !! Variables.escrow_address))
  || negb (bool_decide (admin = sender (Txn e)))
  || negb (Z.of_nat (length (group e)) =? 1) = false
  ↔ Spec.initialize_escrow_ok e g.
Proof.
  intros Hadm. unfold Spec.initialize_escrow_ok. rewrite Hadm.
  rewrite !orb_false_iff, !negb_false_iff, Z.eqb_eq, bool_decide_eq_true,
    bool_decide_eq_false, <- eq_None_not_Some.
  split.
  - intros [[? ->] ?]. repeat split; [lia | done].
  - intros (? & ? & [= ->]). repeat split; [done | lia].
Qed.

Lemma initialize_escrow_already_set e g :
  listing_inv g → is_Some (g !! Variables.escrow_address) →
  initialize_escrow e g = Halt 0 g.
Proof.
  intros [Hwt _] Hset.
  destruct (well_typed_fields g Hwt) as (_ & _ & _ & admin & _ & _ & _ & _ & Hadm & _).
  rewrite (initialize_escrow_typed e g admin Hadm).
  by rewrite (bool_decide_eq_true_2 _ Hset).
Qed.

Lemma run_calls_escrow cs : ∀ g,
  listing_inv g → is_Some (g !! Variables.escrow_address) →
  run_calls cs g !! Variables.escrow_address = g !! Variables.escrow_address.
Proof.
  induction cs as [| [a e] cs IH]; intros g Hinv Hset; [done |]. simpl.
  assert (Hsame : commit (handler a) e g !! Variables.escrow_address
                  = g !! Variables.escrow_address).
  { destruct (decide (a = InitializeEscrow)) as [-> | Hne].
    - simpl. by rewrite (commit_Halt0 _ _ _ _ (initialize_escrow_already_set e g Hinv Hset)).
    - apply commit_frame. destruct a; [done | not_written..]. }
  rewrite IH; [done | by apply listing_inv_handler | by rewrite Hsame].
Qed.

(** C2.  In a reachable store whose escrow address is set, every
    initializeEscrow is rejected and writes nothing, whoever calls, whatever the
    group and the arguments; no other handler writes [ESCROW_ADDRESS]; so no
    history of calls changes the address once it is set. *)
Theorem escrow_address_set_once g :
  reachable g →
  is_Some (g !! Variables.escrow_address) →
  (∀ e, initialize_escrow e g = Halt 0 g
        ∧ run initialize_escrow e g = Rejected
        ∧ commit initialize_escrow e g = g)
  ∧ (∀ a e (g' : gmap string TealValue),
       a = InitializeEscrow
       ∨ (store_of (handler a e g') !! Variables.escrow_address
          = g' !! Variables.escrow_address
          ∧ commit (handler a) e g' !! Variables.escrow_address
            = g' !! Variables.escrow_address))
  ∧ (∀ cs, run_calls cs g !! Variables.escrow_address
           = g !! Variables.escrow_address).
Proof.
  intros Hreach Hset. apply reachable_listing_inv in Hreach.
  split; [| split].
  - intros e. pose proof (initialize_escrow_already_set e g Hreach Hset) as H.
    by rewrite (run_Halt0 _ _ _ _ H), (commit_Halt0 _ _ _ _ H).
  - intros a e g'. destruct (decide (a = InitializeEscrow)) as [| Hne]; [by left |].
    right. split; [apply handler_frame | apply commit_frame];
      (destruct a; [done | not_written..]).
  - intros cs. by apply run_calls_escrow.
Qed.

Lemma escrow_address_set_once_witness :
  initialize_escrow Scenario.init_again Scenario.s2 = Halt 0 Scenario.s2
  ∧ run initialize_escrow Scenario.init_again Scenario.s2 = Rejected
  ∧ commit initialize_escrow Scenario.init_again Scenario.s2 = Scenario.s2.
Proof.
  assert (Hesc : is_Some (Scenario.s2 !! Variables.escrow_address))
    by (eexists; vm_compute; reflexivity).
  exact (proj1 (escrow_address_set_once Scenario.s2 scenario_reachable Hesc)
           Scenario.init_again).
Defined.

(** The escrow key takes an address of at most 114 bytes. *)
Lemma storable_escrow a :
  storable Variables.escrow_address (VBytes a) = (String.length a <=? 114)%nat.
Proof. by rewrite storable_bytes by (simpl; lia). Qed.

(** C10.  Called alone in its group by the stored admin while the escrow
    address is unset, initializeEscrow with fewer than two arguments reads
    argument 1 out of range and the evaluation fails: no reject is returned.
    The handler never looks at the number of arguments: whatever their number,
    a call with an argument 1 that the store can hold under the key (at most
    114 bytes) is accepted, and with a longer one the evaluation fails.  Every
    other violated precondition gives a reject. *)
Theorem initialize_escrow_missing_argument e g :
  g !! Variables.escrow_address = None →
  field g Variables.app_admin = VBytes (sender (Txn e)) →
  length (group e) = 1%nat →
  ((length (application_args (Txn e)) < 2)%nat →
   initialize_escrow e g = Fail g ∧ run initialize_escrow e g = Aborted)
  ∧ (∀ a, application_args (Txn e) !! 1%nat = Some a →
          ((String.length a ≤ 114)%nat →
           initialize_escrow e g
           = Halt 1 (<[Variables.app_state := VUint AppState.active]>
                       (<[Variables.escrow_address := VBytes a]> g)))
          ∧ ((114 < String.length a)%nat →
             initialize_escrow e g = Fail g
             ∧ run initialize_escrow e g = Aborted))
  ∧ (∀ e' (g' : gmap string TealValue) admin,
       field g' Variables.app_admin = VBytes admin →
       ¬ Spec.initialize_escrow_ok e' g' →
       initialize_escrow e' g' = Halt 0 g' ∧ run initialize_escrow e' g' = Rejected).
Proof.
  intros Hnone Hadm Hlen.
  assert (Hok : Spec.initialize_escrow_ok e g) by done.
  apply (initialize_escrow_ok_iff e g _ Hadm) in Hok.
  pose proof (initialize_escrow_typed e g _ Hadm) as Heq. rewrite Hok in Heq.
  split; [| split].
  - intros Hargs.
    rewrite (lookup_ge_None_2 (application_args (Txn e)) 1) in Heq by lia.
    by rewrite (run_Fail _ _ _ _ Heq).
  - intros a Ha. rewrite Ha, storable_escrow in Heq. split; intros Hsize.
    + by rewrite (proj2 (Nat.leb_le _ _) Hsize) in Heq.
    + rewrite (proj2 (Nat.leb_gt _ _) Hsize) in Heq.
      by rewrite (run_Fail _ _ _ _ Heq).
  - intros e' g' admin Hadm' Hnok.
    pose proof (initialize_escrow_typed e' g' admin Hadm') as Heq'.
    destruct (_ || _) eqn:Hc in Heq'.
    + by rewrite (run_Halt0 _ _ _ _ Heq').
    + by apply (initialize_escrow_ok_iff e' g' admin Hadm') in Hc.
Qed.

Lemma initialize_escrow_missing_argument_witness :
  initialize_escrow Scenario.init_no_address Scenario.s0 = Fail Scenario.s0
  ∧ run initialize_escrow Scenario.init_no_address Scenario.s0 = Aborted.
Proof.
  apply (initialize_escrow_missing_argument Scenario.init_no_address Scenario.s0);
    [vm_compute; reflexivity | vm_compute; reflexivity | reflexivity | simpl; lia].
Defined.

(** ** sell and stopSelling *)

Lemma sell_ok_iff e g st owner :
  field g Variables.app_state = VUint st →
  field g Variables.asa_owner = VBytes owner →
  (Z.of_nat (length (group e)) =? 1)
  && ((st =? AppState.active) || (st =? AppState.selling_in_progress))
  && bool_decide (sender (Txn e) = owner)
  && (Z.of_nat (length (application_args (Txn e))) =? 2) = true
  ↔ Spec.sell_ok e g.
Proof.
  intros Hst Hown. unfold Spec.sell_ok. rewrite Hst, Hown.
  rewrite !andb_true_iff, orb_true_iff, !Z.eqb_eq, bool_decide_eq_true.
  split.
  - intros [[[? Hs] ->] ?]. repeat split; try lia.
    destruct Hs as [-> | ->]; auto.
  - intros (? & ? & Hs & [= ->]). repeat split; try lia.
    destruct Hs as [[= ->] | [= ->]]; auto.
Qed.

Lemma stop_selling_ok_iff e g st owner :
  field g Variables.app_state = VUint st →
  field g Variables.asa_owner = VBytes owner →
  (Z.of_nat (length (group e)) =? 1)
  && bool_decide (sender (Txn e) = owner)
  && negb (st =? AppState.not_initialized) = true
  ↔ Spec.stop_selling_ok e g.
Proof.
  intros Hst Hown. unfold Spec.stop_selling_ok. rewrite Hst, Hown.
  rewrite !andb_true_iff, negb_true_iff, Z.eqb_eq, Z.eqb_neq, bool_decide_eq_true.
  split.
  - intros [[? ->] ?]. repeat split; try lia. congruence.
  - intros (? & [= ->] & ?). repeat split; try lia. congruence.
Qed.

(** C5.  Whatever the lifecycle state, a sell whose sender is not the stored
    owner is rejected and the store, price and state included, is unchanged. *)
Theorem sell_requires_owner e g st owner :
  field g Variables.app_state = VUint st →
  field g Variables.asa_owner = VBytes owner →
  sender (Txn e) ≠ owner →
  sell e g = Halt 0 g ∧ run sell e g = Rejected ∧ commit sell e g = g.
Proof.
  intros Hst Hown Hne.
  assert (H : sell e g = Halt 0 g).
  { rewrite (sell_typed e g st owner Hst Hown).
    rewrite (bool_decide_eq_false_2 _ Hne).
    by rewrite andb_false_r. }
  by rewrite (run_Halt0 _ _ _ _ H), (commit_Halt0 _ _ _ _ H).
Qed.

Lemma sell_requires_owner_witness :
  sell Scenario.sell_by_other Scenario.s1 = Halt 0 Scenario.s1
  ∧ run sell Scenario.sell_by_other Scenario.s1 = Rejected
  ∧ commit sell Scenario.sell_by_other Scenario.s1 = Scenario.s1.
Proof.
  apply (sell_requires_owner Scenario.sell_by_other Scenario.s1 1 Scenario.A);
    [vm_compute; reflexivity | vm_compute; reflexivity | discriminate].
Defined.

Lemma field_lookup g k v : field g k = v → v ≠ VUint 0 → g !! k = Some v.
Proof.
  unfold field. destruct (g !! k); simpl; [by intros -> | by intros <-].
Qed.

(** C7.  While the state is [Active], a stopSelling sent alone in its group by
    the stored owner is accepted and the store after it is the store before
    it; so any number of such calls, one after the other, are all accepted and
    leave the store as it was. *)
Theorem stop_selling_idempotent g owner :
  field g Variables.app_state = VUint AppState.active →
  field g Variables.asa_owner = VBytes owner →
  (∀ e, length (group e) = 1%nat → sender (Txn e) = owner →
        stop_selling e g = Halt 1 g
        ∧ run stop_selling e g = Approved g
        ∧ commit stop_selling e g = g)
  ∧ (∀ es, Forall (fun e => length (group e) = 1%nat ∧ sender (Txn e) = owner) es →
           verdicts (map (pair StopSelling) es) g = map (fun _ => Approved g) es
           ∧ run_calls (map (pair StopSelling) es) g = g).
Proof.
  intros Hst Hown.
  assert (Hone : ∀ e, length (group e) = 1%nat → sender (Txn e) = owner →
                      stop_selling e g = Halt 1 g).
  { intros e Hlen Hsnd.
    rewrite (stop_selling_typed e g _ owner Hst Hown), Hlen.
    rewrite (bool_decide_eq_true_2 _ Hsnd). simpl.
    f_equal. apply insert_id. apply field_lookup; done. }
  split.
  - intros e Hlen Hsnd. pose proof (Hone e Hlen Hsnd) as H.
    by rewrite (run_Halt1 _ _ _ _ H), (commit_Halt1 _ _ _ _ H).
  - induction 1 as [| e es [Hlen Hsnd] _ [IHv IHr]]; [done |].
    pose proof (Hone e Hlen Hsnd) as H. simpl.
    by rewrite (run_Halt1 _ _ _ _ H), (commit_Halt1 _ _ _ _ H), IHv, IHr.
Qed.

Lemma stop_selling_idempotent_witness :
  stop_selling Scenario.stop_by_owner Scenario.s1 = Halt 1 Scenario.s1
  ∧ run stop_selling Scenario.stop_by_owner Scenario.s1 = Approved Scenario.s1
  ∧ commit stop_selling Scenario.stop_by_owner Scenario.s1 = Scenario.s1.
Proof.
  apply (stop_selling_idempotent Scenario.s1 Scenario.A);
    [vm_compute; reflexivity | vm_compute; reflexivity | reflexivity | reflexivity].
Defined.

(** ** The lifecycle state *)

Lemma not_initialized_stays a e g :
  field g Variables.app_state = VUint AppState.not_initialized →
  a ≠ InitializeEscrow →
  commit (handler a) e g = g ∧ store_of (handler a e g) = g.
Proof.
  intros Hst Hne.
  assert (H : handler a e g = Halt 0 g ∨ handler a e g = Fail g).
  { destruct a; [done | | |]; simpl.
    - by apply sell_not_initialized.
    - by apply buy_not_initialized.
    - by apply stop_selling_not_initialized. }
  destruct H as [H | H].
  - by rewrite (commit_Halt0 _ _ _ _ H), H.
  - by rewrite (commit_Fail _ _ _ _ H), H.
Qed.

Lemma initialized_stays a e g st :
  field g Variables.app_state = VUint st →
  st = AppState.active ∨ st = AppState.selling_in_progress →
  ∃ st', field (commit (handler a) e g) Variables.app_state = VUint st'
         ∧ (st' = AppState.active ∨ st' = AppState.selling_in_progress).
Proof.
  intros Hst Hrange.
  assert (Hput : ∀ (g' : gmap string TealValue) n,
            field (<[Variables.app_state := VUint n]> g') Variables.app_state = VUint n).
  { intros g' n. unfold field. by rewrite lookup_insert_eq. }
  destruct a; simpl.
  - destruct (initialize_escrow_cases e g) as [H | [H | (x & _ & _ & H)]].
    + rewrite (commit_Fail _ _ _ _ H). eauto.
    + rewrite (commit_Halt0 _ _ _ _ H). eauto.
    + rewrite (commit_Halt1 _ _ _ _ H), Hput. eauto.
  - destruct (sell_cases e g) as [H | [H | (x & H)]].
    + rewrite (commit_Fail _ _ _ _ H). eauto.
    + rewrite (commit_Halt0 _ _ _ _ H). eauto.
    + rewrite (commit_Halt1 _ _ _ _ H), Hput. eauto.
  - destruct (buy_cases e g) as [H | [H | (x & _ & H)]].
    + rewrite (commit_Fail _ _ _ _ H). eauto.
    + rewrite (commit_Halt0 _ _ _ _ H). eauto.
    + rewrite (commit_Halt1 _ _ _ _ H), Hput. eauto.
  - destruct (stop_selling_cases e g) as [H | [H | H]].
    + rewrite (commit_Fail _ _ _ _ H). eauto.
    + rewrite (commit_Halt0 _ _ _ _ H). eauto.
    + rewrite (commit_Halt1 _ _ _ _ H), Hput. eauto.
Qed.

Lemma run_calls_initialized cs : ∀ g st,
  field g Variables.app_state = VUint st →
  st = AppState.active ∨ st = AppState.selling_in_progress →
  ∃ st', field (run_calls cs g) Variables.app_state = VUint st'
         ∧ (st' = AppState.active ∨ st' = AppState.selling_in_progress).
Proof.
  induction cs as [| [a e] cs IH]; intros g st Hst Hrange; [eauto |]. simpl.
  destruct (initialized_stays a e g st Hst Hrange) as (st' & Hst' & Hrange').
  by apply (IH _ st').
Qed.

(** C6.  While the state is [NotInitialized], sell, buy and stopSelling leave
    the store as it is, and initializeEscrow either does too or is accepted
    and sets the state to [Active]; once the state is [Active] or
    [SellingInProgress], it is one of these two after any history of calls. *)
Theorem not_initialized_left_once g st :
  field g Variables.app_state = VUint st →
  (st = AppState.not_initialized →
   ∀ a e,
     commit (handler a) e g = g
     ∨ (a = InitializeEscrow
        ∧ ∃ g', run initialize_escrow e g = Approved g'
                ∧ commit initialize_escrow e g = g'
                ∧ field g' Variables.app_state = VUint AppState.active))
  ∧ (st = AppState.active ∨ st = AppState.selling_in_progress →
     ∀ cs, ∃ st', field (run_calls cs g) Variables.app_state = VUint st'
                  ∧ (st' = AppState.active ∨ st' = AppState.selling_in_progress)).
Proof.
  intros Hst. split.
  - intros -> a e.
    destruct (decide (a = InitializeEscrow)) as [-> | Hne].
    + simpl. destruct (initialize_escrow_cases e g) as [H | [H | (x & _ & _ & H)]].
      * left. by apply (commit_Fail _ _ _ _ H).
      * left. by apply (commit_Halt0 _ _ _ _ H).
      * right. split; [done |]. eexists.
        rewrite (run_Halt1 _ _ _ _ H), (commit_Halt1 _ _ _ _ H).
        repeat split. unfold field. by rewrite lookup_insert_eq.
    + left. by apply not_initialized_stays.
  - intros Hrange cs. by apply (run_calls_initialized cs g st).
Qed.

Lemma not_initialized_left_once_witness :
  (∀ a e,
     commit (handler a) e Scenario.s0 = Scenario.s0
     ∨ (a = InitializeEscrow
        ∧ ∃ g', run initialize_escrow e Scenario.s0 = Approved g'
                ∧ commit initialize_escrow e Scenario.s0 = g'
                ∧ field g' Variables.app_state = VUint AppState.active))
  ∧ (∀ cs, ∃ st', field (run_calls cs Scenario.s2) Variables.app_state = VUint st'
                  ∧ (st' = AppState.active ∨ st' = AppState.selling_in_progress)).
Proof.
  split.
  - apply (not_initialized_left_once Scenario.s0 0); [vm_compute |]; reflexivity.
  - apply (not_initialized_left_once Scenario.s2 2); [vm_compute; reflexivity |].
    right. reflexivity.
Defined.

(** ** The price *)

Lemma app_initialization_price e g :
  store_of (app_initialization e g) !! Variables.asa_price = g !! Variables.asa_price.
Proof.
  rewrite app_initialization_eq.
  destruct (application_args (Txn e)) as [| a0 [| a1 [| a2 [| a3 rest]]]]; try done.
  cbv zeta.
  destruct (String.length a0 <=? 8)%nat;
    [destruct (storable Variables.asa_owner (VBytes a1));
       [destruct (storable Variables.app_admin (VBytes a2)) |] |];
    simpl; by rewrite !lookup_insert_ne.
Qed.

(** C8.  buy and stopSelling never write [ASA_PRICE], accepted or not, so the
    price stays as it was when the state leaves [SellingInProgress]; neither do
    initializeEscrow and the creation; a call that changes the price is an
    accepted sell. *)
Theorem asa_price_written_by_sell_only :
  (∀ e (g : gmap string TealValue),
     store_of (buy e g) !! Variables.asa_price = g !! Variables.asa_price
     ∧ commit buy e g !! Variables.asa_price = g !! Variables.asa_price)
  ∧ (∀ e (g : gmap string TealValue),
       store_of (stop_selling e g) !! Variables.asa_price = g !! Variables.asa_price
       ∧ commit stop_selling e g !! Variables.asa_price = g !! Variables.asa_price)
  ∧ (∀ e (g : gmap string TealValue),
       store_of (app_initialization e g) !! Variables.asa_price
       = g !! Variables.asa_price)
  ∧ (∀ a e (g : gmap string TealValue),
       commit (handler a) e g !! Variables.asa_price = g !! Variables.asa_price
       ∨ (a = Sell ∧ ∃ g', run sell e g = Approved g')).
Proof.
  split; [| split; [| split]].
  - intros e g. split;
      [apply (handler_frame Buy) | apply (commit_frame Buy)]; not_written.
  - intros e g. split;
      [apply (handler_frame StopSelling) | apply (commit_frame StopSelling)]; not_written.
  - apply app_initialization_price.
  - intros a e g. destruct (decide (a = Sell)) as [-> | Hne].
    + destruct (handler_unapproved Sell e g) as [(g' & _ & H) | (_ & H & _)].
      * right. eauto.
      * left. by rewrite H.
    + left. apply commit_frame. destruct a; [not_written | done | not_written..].
Qed.

(** ** Failed preconditions *)

(** C3.  The code misses the claim in buy.  A group that fails the
    preconditions of initializeEscrow, sell or stopSelling makes the handler
    return reject (here a sell and a stopSelling in a group of two records);
    a buy in a group of two records, while the listing is [Active], fails every
    precondition on the group and the state, yet the handler does not return
    reject: the evaluation fails on the read of record 2, which [And]
    evaluates whatever the tests before it give. *)
Theorem buy_pair_aborts :
  well_typed Scenario.s1 = true
  ∧ ¬ Spec.buy_ok Scenario.buy_pair Scenario.s1
  ∧ run buy Scenario.buy_pair Scenario.s1 = Aborted
  ∧ buy Scenario.buy_pair Scenario.s1 ≠ Halt 0 Scenario.s1
  ∧ ¬ Spec.sell_ok Calls.sell_pair Scenario.s1
  ∧ sell Calls.sell_pair Scenario.s1 = Halt 0 Scenario.s1
  ∧ ¬ Spec.stop_selling_ok Calls.stop_pair Scenario.s1
  ∧ stop_selling Calls.stop_pair Scenario.s1 = Halt 0 Scenario.s1.
Proof.
  split; [by vm_compute |]. split.
  { intros (r0 & r1 & r2 & Hg & _). by vm_compute in Hg. }
  split; [by vm_compute |]. split; [by vm_compute |]. split.
  { intros (Hlen & _). by vm_compute in Hlen. }
  split; [by vm_compute |]. split.
  { intros (Hlen & _). by vm_compute in Hlen. }
  by vm_compute.
Qed.

(** On a typed store, a group that fails the preconditions of
    initializeEscrow, sell or stopSelling makes the handler return reject. *)
Lemma failed_preconditions_reject a e g :
  well_typed g = true →
  a ≠ Buy → ¬ Spec.ok a e g →
  handler a e g = Halt 0 g.
Proof.
  intros Hwt Hne Hnok.
  destruct (well_typed_fields g Hwt)
    as (st & id & owner & admin & price & Hst & Hid & Hown & Hadm & Hprice & _).
  destruct a; simpl in *; [| | done |].
  - rewrite (initialize_escrow_typed e g admin Hadm).
    destruct (_ || _) eqn:Hc; [done |].
    by apply (initialize_escrow_ok_iff e g admin Hadm) in Hc.
  - rewrite (sell_typed e g st owner Hst Hown).
    destruct (_ && _) eqn:Hc; [| done].
    by apply (sell_ok_iff e g st owner Hst Hown) in Hc.
  - rewrite (stop_selling_typed e g st owner Hst Hown).
    destruct (_ && _) eqn:Hc; [| done].
    by apply (stop_selling_ok_iff e g st owner Hst Hown) in Hc.
Qed.

(** ** Creation *)

(** The owner and the admin keys take a value of at most 119 bytes. *)
Lemma storable_owner a :
  storable Variables.asa_owner (VBytes a) = (String.length a <=? 119)%nat.
Proof. by rewrite storable_bytes by (simpl; lia). Qed.

Lemma storable_admin a :
  storable Variables.app_admin (VBytes a) = (String.length a <=? 119)%nat.
Proof. by rewrite storable_bytes by (simpl; lia). Qed.

(** C4 (as stated) fails: a creation call with three arguments is not
    accepted when the first is nine bytes long (the evaluation fails in
    [Btoi]), nor when the second is 200 bytes long (it cannot be stored under
    its key). *)
Lemma creation_oversize_argument_aborts :
  application_id (Txn Scenario.create_long_id) = 0
  ∧ length (application_args (Txn Scenario.create_long_id)) = 3%nat
  ∧ run approval_program Scenario.create_long_id ∅ = Aborted
  ∧ application_id (Txn Calls.create_long_owner) = 0
  ∧ length (application_args (Txn Calls.create_long_owner)) = 3%nat
  ∧ run approval_program Calls.create_long_owner ∅ = Aborted.
Proof. by vm_compute. Qed.

(** C4 (as amended).  A creation call (application id 0) with exactly three
    arguments, the first of at most 8 bytes and the second and the third of at
    most 119 bytes each, is accepted; it sets the state to [NotInitialized],
    the asset id to the big-endian value of the first argument, and the owner
    and the admin to the second and the third argument as they are.  With
    three arguments of which one is longer, and with any other number of
    arguments, the evaluation fails. *)
Theorem creation_sets_listing e g :
  application_id (Txn e) = 0 →
  (∀ a0 a1 a2,
     application_args (Txn e) = [a0; a1; a2] →
     ((String.length a0 ≤ 8)%nat →
      (String.length a1 ≤ 119)%nat →
      (String.length a2 ≤ 119)%nat →
      run approval_program e g
      = Approved (<[Variables.app_admin := VBytes a2]>
                    (<[Variables.asa_owner := VBytes a1]>
                       (<[Variables.asa_id := VUint (btoi_acc 0 a0)]>
                          (<[Variables.app_state := VUint AppState.not_initialized]> g)))))
     ∧ ((8 < String.length a0)%nat ∨ (119 < String.length a1)%nat
        ∨ (119 < String.length a2)%nat →
        run approval_program e g = Aborted ∧ commit approval_program e g = g))
  ∧ (length (application_args (Txn e)) ≠ 3%nat →
     approval_program e g = Fail g ∧ run approval_program e g = Aborted).
Proof.
  intros Hid. unfold run, commit, run, approval_program.
  rewrite application_start_creation, app_initialization_eq by done.
  split.
  - intros a0 a1 a2 ->. cbv zeta. rewrite storable_owner, storable_admin.
    split.
    + intros H0 H1 H2.
      by rewrite (proj2 (Nat.leb_le _ _) H0), (proj2 (Nat.leb_le _ _) H1),
        (proj2 (Nat.leb_le _ _) H2).
    + intros Hlong.
      destruct (Nat.leb_spec (String.length a0) 8); [| done].
      destruct (Nat.leb_spec (String.length a1) 119); [| done].
      destruct (Nat.leb_spec (String.length a2) 119); [| done].
      lia.
  - intros Hlen.
    by destruct (application_args (Txn e)) as [| a0 [| a1 [| a2 [| a3 rest]]]].
Qed.

Lemma creation_sets_listing_witness :
  run approval_program Scenario.create ∅
  = Approved (<[Variables.app_admin := VBytes Scenario.M]>
                (<[Variables.asa_owner := VBytes Scenario.A]>
                   (<[Variables.asa_id := VUint 42]>
                      (<[Variables.app_state := VUint AppState.not_initialized]> ∅)))).
Proof.
  apply (proj1 (proj1 (creation_sets_listing Scenario.create ∅ eq_refl)
                  "*" Scenario.A Scenario.M eq_refl));
    simpl; lia.
Defined.

(** ** Record 0 of a buy group *)

Section Agree.
Variables e e' : env.

Lemma agree_const {A} (c : Expr A) : (∀ e1 e2 g, c e1 g = c e2 g) → agree e e' c.
Proof. intros H g. apply H. Qed.

Lemma agree_bind {A B} (m : Expr A) (f : A → Expr B) :
  agree e e' m → (∀ a, agree e e' (f a)) → agree e e' (bind m f).
Proof.
  intros Hm Hf g. unfold bind. rewrite (Hm g).
  destruct (m e' g); [apply Hf | done | done].
Qed.

Lemma agree_Eq a b : agree e e' a → agree e e' b → agree e e' (a == b).
Proof.
  intros Ha Hb. apply agree_bind; [done |]. intros x.
  apply agree_bind; [done |]. intros y.
  by destruct (teal_eqb x y); apply agree_const.
Qed.

Lemma agree_logic_op op a b :
  agree e e' a → agree e e' b → agree e e' (logic_op op a b).
Proof.
  intros Ha Hb. apply agree_bind; [done |]. intros x.
  apply agree_bind; [done |]. intros y.
  by destruct x, y; apply agree_const.
Qed.

Lemma agree_fold_logic op rest : ∀ a,
  agree e e' a → Forall (agree e e') rest →
  agree e e' (fold_left (logic_op op) rest a).
Proof.
  induction rest as [| b rest IH]; intros a Ha Hrest; [done |].
  inversion Hrest; subst. simpl. apply IH; [by apply agree_logic_op | done].
Qed.

Lemma agree_And args : Forall (agree e e') args → agree e e' (And args).
Proof.
  destruct args as [| a rest]; intros H; [by apply agree_const |].
  inversion H; subst. by apply agree_fold_logic.
Qed.

Lemma agree_If {A} c (t f : Expr A) :
  agree e e' c → agree e e' t → agree e e' f → agree e e' (If c t f).
Proof.
  intros Hc Ht Hf. apply agree_bind; [done |]. intros x.
  destruct x; [by destruct (n =? 0) | by apply agree_const].
Qed.

Lemma agree_Return {A} c : agree e e' c → agree e e' (@Return A c).
Proof.
  intros Hc. apply agree_bind; [done |]. intros x.
  by destruct x; apply agree_const.
Qed.

Lemma agree_globalPut k v : agree e e' v → agree e e' (App.globalPut k v).
Proof.
  intros Hv. apply agree_bind; [done |]. intros x.
  by destruct (storable k x); apply agree_const.
Qed.

Lemma agree_Seq l : Forall (agree e e') l → agree e e' (Seq l).
Proof.
  induction 1 as [| s rest Hs _ IH]; [by apply agree_const |].
  simpl. by apply agree_bind.
Qed.

Lemma agree_Gtxn i f :
  f <$> group e !! i = f <$> group e' !! i → agree e e' (Gtxn i f).
Proof.
  intros H g. unfold Gtxn.
  destruct (group e !! i), (group e' !! i); simplify_eq/=; by rewrite ?H.
Qed.
End Agree.

Lemma buy_group_only e e' g r0 r0' rest :
  group e = r0 :: rest → group e' = r0' :: rest → sender r0 = sender r0' →
  buy e g = buy e' g.
Proof.
  intros Hg Hg' Hs.
  assert (Hsize : agree e e' Global.group_size).
  { intros g1. unfold Global.group_size. by rewrite Hg, Hg'. }
  assert (Hget : ∀ k, agree e e' (App.globalGet k)) by (intros k; by apply agree_const).
  assert (Hint : ∀ n, agree e e' (Int n)) by (intros n; by apply agree_const).
  assert (Hsnd : agree e e' (Gtxn_bytes 0 sender)).
  { apply agree_Gtxn. rewrite Hg, Hg'. simpl. by rewrite Hs. }
  assert (Hrest : ∀ i f, agree e e' (Gtxn (S i) f)).
  { intros i f. apply agree_Gtxn. by rewrite Hg, Hg'. }
  apply agree_If.
  - repeat first [ apply agree_And | apply Forall_cons; split | apply Forall_nil_2
                 | apply agree_Eq | done | apply Hrest ].
  - apply agree_Seq.
    repeat first [ apply Forall_cons; split | apply Forall_nil_2
                 | apply agree_globalPut | apply agree_Return | done ].
  - by apply agree_Return.
Qed.

(** In a group that buy accepts, the application call under evaluation can only
    be record 0: records 1 and 2 are a payment and an asset transfer. *)
Lemma buy_accepted_call_is_first e g :
  type_enum (Txn e) = TxnType.ApplicationCall → Spec.buy_ok e g → before e = [].
Proof.
  intros Hty (r0 & r1 & r2 & Hg & _ & Hpay & _ & _ & _ & _ & Hax & _).
  unfold group in Hg.
  destruct (before e) as [| b0 [| b1 [| b2 bs]]]; [done | | |]; simplify_eq/=.
  - rewrite Hty in Hpay. done.
  - rewrite Hty in Hax. done.
  - by destruct bs.
Qed.

(** C9.  buy looks at record 0 through its sender only, and not at which
    record of the group is the call under evaluation: two groups with the same
    records 1 and 2 and the same sender of record 0 get the same outcome.  So a
    three-record group evaluated while the asset is on sale is accepted as
    soon as records 1 and 2 are as required and the sender of record 1 is the
    sender of record 0, whatever the type of record 0; the owner becomes the
    sender of record 0. *)
Theorem buy_reads_record_0_sender_only g :
  (∀ e e' r0 r0' rest,
     group e = r0 :: rest → group e' = r0' :: rest → sender r0 = sender r0' →
     buy e g = buy e' g)
  ∧ (∀ e r0 r1 r2,
       group e = [r0; r1; r2] →
       field g Variables.app_state = VUint AppState.selling_in_progress →
       type_enum r1 = TxnType.Payment →
       field g Variables.asa_owner = VBytes (receiver r1) →
       field g Variables.asa_price = VUint (amount r1) →
       sender r1 = sender r0 →
       sender r1 = asset_receiver r2 →
       type_enum r2 = TxnType.AssetTransfer →
       field g Variables.escrow_address = VBytes (sender r2) →
       field g Variables.asa_id = VUint (xfer_asset r2) →
       asset_amount r2 = 1 →
       run buy e g
       = Approved (<[Variables.app_state := VUint AppState.active]>
                     (<[Variables.asa_owner := VBytes (sender r0)]> g))).
Proof.
  split.
  - intros e e' r0 r0' rest. apply buy_group_only.
  - intros e r0 r1 r2 Hg Hst Hpay Hown Hprice Hs0 Hs2 Hax Hesc Hid Hone.
    assert (Hok : Spec.buy_ok e g) by (exists r0, r1, r2; done).
    destruct (buy_accepts e g Hok) as (x & Hx & H).
    rewrite Hg in Hx. simplify_eq/=. by rewrite (run_Halt1 _ _ _ _ H).
Qed.

Lemma buy_reads_record_0_sender_only_witness :
  buy Scenario.buy_odd_group Scenario.s2 = buy Scenario.buy_group Scenario.s2
  ∧ run buy Scenario.buy_odd_group Scenario.s2
    = Approved (<[Variables.app_state := VUint AppState.active]>
                  (<[Variables.asa_owner := VBytes Scenario.B]> Scenario.s2)).
Proof.
  split.
  - apply (proj1 (buy_reads_record_0_sender_only Scenario.s2)
             Scenario.buy_odd_group Scenario.buy_group
             (Scenario.payment Scenario.B "" 0) (Scenario.call 7 Scenario.B ["buy"])
             [Scenario.payment Scenario.B Scenario.A 100;
              Scenario.asset_transfer Scenario.E Scenario.B 42 1]);
      reflexivity.
  - apply (proj2 (buy_reads_record_0_sender_only Scenario.s2)
             Scenario.buy_odd_group
             (Scenario.payment Scenario.B "" 0)
             (Scenario.payment Scenario.B Scenario.A 100)
             (Scenario.asset_transfer Scenario.E Scenario.B 42 1));
      vm_compute; reflexivity.
Defined.

(** ** Dispatch *)

(** X1.  A call to the existing application is dispatched on its first
    argument alone: each of the four method names reaches its handler, a call
    with no argument and a call with any other first argument fail (no branch
    of the [Cond] matches), and the store is then unchanged. *)
Theorem dispatch_by_first_argument e g :
  application_id (Txn e) ≠ 0 →
  (application_args (Txn e) = [] →
   approval_program e g = Fail g ∧ run approval_program e g = Aborted)
  ∧ (∀ m rest, application_args (Txn e) = m :: rest →
       (m = AppMethods.buy → approval_program e g = buy e g)
       ∧ (m = AppMethods.initialize_escrow →
          approval_program e g = initialize_escrow e g)
       ∧ (m = AppMethods.stop_selling → approval_program e g = stop_selling e g)
       ∧ (m = AppMethods.sell → approval_program e g = sell e g)
       ∧ (m ∉ app_methods →
          approval_program e g = Fail g
          ∧ run approval_program e g = Aborted
          ∧ commit approval_program e g = g)).
Proof.
  intros Hid. unfold approval_program.
  pose proof (application_start_call e g Hid) as Hcall.
  split.
  - intros Hargs. rewrite Hargs in Hcall. by rewrite (run_Fail _ _ _ _ Hcall).
  - intros m rest Hargs. rewrite Hargs in Hcall.
    split; [| split; [| split; [| split]]].
    + intros ->. by rewrite Hcall.
    + intros ->. by rewrite Hcall.
    + intros ->. by rewrite Hcall.
    + intros ->. by rewrite Hcall.
    + intros Hm. unfold app_methods in Hm.
      rewrite !not_elem_of_cons in Hm. destruct Hm as (? & ? & ? & ? & _).
      rewrite !bool_decide_eq_false_2 in Hcall by done.
      by rewrite (run_Fail _ _ _ _ Hcall), (commit_Fail _ _ _ _ Hcall).
Qed.

Lemma dispatch_by_first_argument_witness :
  approval_program Calls.unknown_method Scenario.s1 = Fail Scenario.s1
  ∧ run approval_program Calls.unknown_method Scenario.s1 = Aborted
  ∧ commit approval_program Calls.unknown_method Scenario.s1 = Scenario.s1.
Proof.
  refine (proj2 (proj2 (proj2 (proj2
            (proj2 (dispatch_by_first_argument Calls.unknown_method Scenario.s1 _)
               "transfer" [] eq_refl)))) _).
  - discriminate.
  - unfold app_methods. rewrite !not_elem_of_cons.
    repeat split; (discriminate || apply not_elem_of_nil).
Defined.

(** ** buy before the escrow is set *)

Lemma buy_escrow_unset e g :
  g !! Variables.escrow_address = None → buy e g = Fail g.
Proof.
  intros Hnone. unfold buy.
  apply If_fail. unfold And at 1. unfold nary. simpl fold_left.
  apply logic_op_fail_r; [auto 20 with teal |].
  unfold And, nary. simpl fold_left.
  do 2 apply logic_op_fail_l.
  apply logic_op_fail_r; [auto with teal |].
  unfold Eq_, bind, Gtxn_bytes, Gtxn.
  destruct (group e !! 2%nat); [| done].
  unfold App.globalGet, field. by rewrite Hnone.
Qed.

(** X2.  While [ESCROW_ADDRESS] is unset, every evaluation of buy fails,
    whatever the group: the sender of record 2, a byte string, is compared
    with the uint64 0 the unset key reads as (or record 2 does not exist).
    Nothing is written. *)
Theorem buy_before_escrow_aborts e g :
  g !! Variables.escrow_address = None →
  buy e g = Fail g ∧ run buy e g = Aborted ∧ commit buy e g = g.
Proof.
  intros Hnone. pose proof (buy_escrow_unset e g Hnone) as H.
  by rewrite (run_Fail _ _ _ _ H), (commit_Fail _ _ _ _ H).
Qed.

Lemma buy_before_escrow_aborts_witness :
  buy Calls.early_buy Scenario.s0 = Fail Scenario.s0
  ∧ run buy Calls.early_buy Scenario.s0 = Aborted
  ∧ commit buy Calls.early_buy Scenario.s0 = Scenario.s0.
Proof.
  apply (buy_before_escrow_aborts Calls.early_buy Scenario.s0).
  vm_compute. reflexivity.
Defined.

(** ** What an accepted call tells *)

Lemma run_Approved_inv p e g g' :
  run p e g = Approved g' → ∃ c, c ≠ 0 ∧ p e g = Halt c g'.
Proof.
  unfold run. destruct (p e g) as [| c g1 |]; try done.
  destruct (c =? 0) eqn:Hc; [done |]. intros [= <-].
  exists c. split; [by apply Z.eqb_neq | done].
Qed.

Lemma accepted_sound a e g g' :
  listing_inv g → run (handler a) e g = Approved g' → Spec.ok a e g.
Proof.
  intros [Hwt _] Hrun.
  destruct (run_Approved_inv _ _ _ _ Hrun) as (c & Hc & Hh).
  destruct (well_typed_fields g Hwt)
    as (st & id & owner & admin & price & Hst & Hid & Hown & Hadm & Hprice & Hesc).
  destruct a; simpl in *.
  - rewrite (initialize_escrow_typed e g admin Hadm) in Hh.
    destruct (_ || _) eqn:Hb in Hh; [by simplify_eq |].
    by apply (initialize_escrow_ok_iff e g admin Hadm).
  - rewrite (sell_typed e g st owner Hst Hown) in Hh.
    destruct (_ && _) eqn:Hb in Hh; [| by simplify_eq].
    by apply (sell_ok_iff e g st owner Hst Hown).
  - destruct Hesc as [Hnone | [escrow Hesc]].
    { by rewrite (buy_escrow_unset e g Hnone) in Hh. }
    apply field_bytes_lookup in Hesc.
    destruct (decide (length (group e) < 3)%nat) as [Hlt | Hge].
    { by rewrite (buy_short_group e g Hlt) in Hh. }
    destruct (group e) as [| r0 [| r1 [| r2 rest]]] eqn:Hg; simpl in Hge; try lia.
    rewrite (buy_typed e g r0 r1 r2 st owner price escrow id) in Hh
      by (by rewrite ?Hg).
    destruct (_ && _) eqn:Hb in Hh; [| by simplify_eq].
    apply (buy_ok_iff e g r0 r1 r2 st owner price escrow id); try done;
      by rewrite Hg.
  - rewrite (stop_selling_typed e g st owner Hst Hown) in Hh.
    destruct (_ && _) eqn:Hb in Hh; [| by simplify_eq].
    by apply (stop_selling_ok_iff e g st owner Hst Hown).
Qed.

Lemma approval_program_accepted e g g' :
  application_id (Txn e) ≠ 0 →
  run approval_program e g = Approved g' →
  ∃ a, application_args (Txn e) !! 0%nat = Some (method_of a)
       ∧ run (handler a) e g = Approved g'.
Proof.
  intros Hid. unfold run at 1. unfold approval_program.
  rewrite (application_start_call e g Hid).
  destruct (application_args (Txn e)) as [| m rest]; [done |].
  repeat case_bool_decide; subst; try done; intros Hrun;
    [exists Buy | exists InitializeEscrow | exists StopSelling | exists Sell];
    (split; [done | exact Hrun]).
Qed.

(** X3.  A call to the existing application that is accepted in a reachable
    store named one of the four methods, and the preconditions of that method
    held: no call is accepted outside the rules of the listing. *)
Theorem accepted_only_when_legal e g g' :
  reachable g →
  application_id (Txn e) ≠ 0 →
  run approval_program e g = Approved g' →
  ∃ a, application_args (Txn e) !! 0%nat = Some (method_of a)
       ∧ Spec.ok a e g
       ∧ run (handler a) e g = Approved g'.
Proof.
  intros Hreach Hid Hrun.
  destruct (approval_program_accepted e g g' Hid Hrun) as (a & Hm & Ha).
  exists a. repeat split; [done | | done].
  by apply (accepted_sound a e g g'); [apply reachable_listing_inv |].
Qed.

Lemma accepted_only_when_legal_witness :
  ∃ a, application_args (Txn Scenario.buy_group) !! 0%nat = Some (method_of a)
       ∧ Spec.ok a Scenario.buy_group Scenario.s2
       ∧ run (handler a) Scenario.buy_group Scenario.s2 = Approved Scenario.s3.
Proof.
  apply (accepted_only_when_legal Scenario.buy_group Scenario.s2 Scenario.s3
           scenario_reachable);
    [discriminate | vm_compute; reflexivity].
Defined.

Lemma field_put g k v : field (<[k := v]> g) k = v.
Proof. unfold field. by rewrite lookup_insert_eq. Qed.

Lemma field_put_ne g k k' v : k ≠ k' → field (<[k := v]> g) k' = field g k'.
Proof. intros Hne. unfold field. by rewrite lookup_insert_ne. Qed.

(** X4.  The transitions of the lifecycle state, read off the accepted calls
    of a reachable store: initializeEscrow goes from [NotInitialized] to
    [Active], sell from [Active] or [SellingInProgress] to
    [SellingInProgress], buy from [SellingInProgress] to [Active], stopSelling
    from [Active] or [SellingInProgress] to [Active]. *)
Theorem lifecycle_transitions a e g g' :
  reachable g →
  run (handler a) e g = Approved g' →
  ∃ st st', field g Variables.app_state = VUint st
            ∧ field g' Variables.app_state = VUint st'
            ∧ match a with
              | InitializeEscrow =>
                  st = AppState.not_initialized ∧ st' = AppState.active
              | Sell => on_listing st ∧ st' = AppState.selling_in_progress
              | Buy => st = AppState.selling_in_progress ∧ st' = AppState.active
              | StopSelling => on_listing st ∧ st' = AppState.active
              end.
Proof.
  intros Hreach Hrun. apply reachable_listing_inv in Hreach.
  pose proof (accepted_sound a e g g' Hreach Hrun) as Hok.
  destruct Hreach as (_ & st & Hst & Hrange & Hesc).
  destruct (run_Approved_inv _ _ _ _ Hrun) as (c & Hc & Hh).
  exists st. destruct a; simpl in *.
  - destruct (initialize_escrow_cases e g) as [H | [H | (x & _ & _ & H)]];
      rewrite H in Hh; simplify_eq.
    destruct Hok as (_ & Hnone & _).
    eexists. rewrite field_put. repeat split; [done | by apply Hesc].
  - destruct (sell_cases e g) as [H | [H | (x & H)]];
      rewrite H in Hh; simplify_eq.
    destruct Hok as (_ & _ & Hs & _). rewrite Hst in Hs.
    eexists. rewrite field_put. repeat split; [done |].
    destruct Hs as [[= ->] | [= ->]]; [by left | by right].
  - destruct (buy_cases e g) as [H | [H | (x & _ & H)]];
      rewrite H in Hh; simplify_eq.
    destruct Hok as (_ & _ & _ & _ & Hs & _). rewrite Hst in Hs.
    eexists. rewrite field_put. repeat split; [done | congruence].
  - destruct (stop_selling_cases e g) as [H | [H | H]];
      rewrite H in Hh; simplify_eq.
    destruct Hok as (_ & _ & Hs). rewrite Hst in Hs.
    eexists. rewrite field_put. repeat split; [done |].
    destruct Hrange as [-> | [-> | ->]]; [done | by left | by right].
Qed.

Lemma lifecycle_transitions_witness :
  ∃ st st', field Scenario.s2 Variables.app_state = VUint st
            ∧ field Scenario.s3 Variables.app_state = VUint st'
            ∧ st = AppState.selling_in_progress ∧ st' = AppState.active.
Proof.
  apply (lifecycle_transitions Buy Scenario.buy_group Scenario.s2 Scenario.s3
           scenario_reachable).
  vm_compute. reflexivity.
Defined.

(** ** sell *)

Lemma btoi_acc_bound s : ∀ acc,
  0 ≤ acc → 0 ≤ btoi_acc acc s < (acc + 1) * 256 ^ Z.of_nat (String.length s).
Proof.
  induction s as [| c s IH]; intros acc Hacc; simpl String.length.
  - simpl. lia.
  - cbn [btoi_acc].
    assert (Hc : 0 ≤ Z.of_N (Ascii.N_of_ascii c) < 256).
    { pose proof (Ascii.N_ascii_bounded c). lia. }
    specialize (IH (acc * 256 + Z.of_N (Ascii.N_of_ascii c)) ltac:(lia)).
    rewrite Nat2Z.inj_succ, Z.pow_succ_r by lia.
    assert (0 < 256 ^ Z.of_nat (String.length s)) by (apply Z.pow_pos_nonneg; lia).
    nia.
Qed.

Lemma btoi_uint64 s :
  (String.length s ≤ 8)%nat → 0 ≤ btoi_acc 0 s < 2 ^ 64.
Proof.
  intros Hlen. pose proof (btoi_acc_bound s 0 ltac:(lia)) as [H0 H1].
  split; [done |].
  eapply Z.lt_le_trans; [exact H1 |].
  change (2 ^ 64) with (256 ^ 8). rewrite Z.mul_1_l.
  apply Z.pow_le_mono_r; lia.
Qed.

Lemma sell_accepts e g p :
  Spec.sell_ok e g →
  application_args (Txn e) !! 1%nat = Some p →
  sell e g =
    if (String.length p <=? 8)%nat
    then Halt 1 (<[Variables.app_state := VUint AppState.selling_in_progress]>
                   (<[Variables.asa_price := VUint (btoi_acc 0 p)]> g))
    else Fail g.
Proof.
  intros Hok Hp.
  pose proof Hok as (_ & _ & Hs & Hown).
  assert (∃ st, field g Variables.app_state = VUint st) as [st Hst]
    by (destruct Hs; eauto).
  rewrite (sell_typed e g st _ Hst Hown).
  rewrite (proj2 (sell_ok_iff e g st _ Hst Hown) Hok).
  by rewrite Hp.
Qed.

(** X5.  A sell that meets its preconditions stores the big-endian value of
    its second argument as the price, a value below 2^64, and sets the state
    to [SellingInProgress]; nothing else is written.  When that argument is
    longer than 8 bytes the call is not rejected: the evaluation fails. *)
Theorem sell_lists_asset e g p :
  Spec.sell_ok e g →
  application_args (Txn e) !! 1%nat = Some p →
  ((String.length p ≤ 8)%nat →
   run sell e g
   = Approved (<[Variables.app_state := VUint AppState.selling_in_progress]>
                 (<[Variables.asa_price := VUint (btoi_acc 0 p)]> g))
   ∧ 0 ≤ btoi_acc 0 p < 2 ^ 64)
  ∧ ((8 < String.length p)%nat →
     sell e g = Fail g ∧ run sell e g = Aborted ∧ commit sell e g = g).
Proof.
  intros Hok Hp. pose proof (sell_accepts e g p Hok Hp) as H.
  split; intros Hlen.
  - rewrite (proj2 (Nat.leb_le _ _) Hlen) in H.
    split; [by rewrite (run_Halt1 _ _ _ _ H) | by apply btoi_uint64].
  - rewrite (proj2 (Nat.leb_gt _ _) Hlen) in H.
    by rewrite (run_Fail _ _ _ _ H), (commit_Fail _ _ _ _ H).
Qed.

Lemma sell_lists_asset_witness :
  sell Calls.sell_long_price Scenario.s1 = Fail Scenario.s1
  ∧ run sell Calls.sell_long_price Scenario.s1 = Aborted
  ∧ commit sell Calls.sell_long_price Scenario.s1 = Scenario.s1.
Proof.
  apply (sell_lists_asset Calls.sell_long_price Scenario.s1 "123456789").
  - repeat split; try reflexivity. left. vm_compute. reflexivity.
  - reflexivity.
  - simpl. lia.
Defined.

Lemma sell_ok_after_sell e g p :
  Spec.sell_ok e g →
  Spec.sell_ok e (<[Variables.app_state := VUint AppState.selling_in_progress]>
                    (<[Variables.asa_price := VUint p]> g)).
Proof.
  intros (? & ? & _ & Hown). repeat split; try done.
  - right. apply field_put.
  - by rewrite !field_put_ne.
Qed.

(** X6.  Listing again while the asset is on sale replaces the price: an
    accepted sell evaluated after another accepted sell gives the store it
    would have given without the first. *)
Theorem sell_relists e1 e2 g g1 g2 :
  Spec.sell_ok e2 g →
  sell e1 g = Halt 1 g1 →
  sell e2 g = Halt 1 g2 →
  sell e2 g1 = Halt 1 g2.
Proof.
  intros Hok H1 H2.
  destruct (sell_cases e1 g) as [H | [H | (p1 & H)]]; rewrite H in H1; simplify_eq.
  pose proof Hok as (_ & Hargs & _).
  destruct (application_args (Txn e2) !! 1%nat) as [p2 |] eqn:Hp;
    [| apply lookup_ge_None in Hp; lia].
  rewrite (sell_accepts e2 g p2 Hok Hp) in H2.
  rewrite (sell_accepts e2 _ p2 (sell_ok_after_sell e2 g p1 Hok) Hp).
  destruct (String.length p2 <=? 8)%nat; [| done].
  simplify_eq. f_equal.
  apply map_eq. intros k. rewrite !lookup_insert. by repeat case_decide.
Qed.

Lemma sell_relists_witness :
  sell Calls.sell_70 Scenario.s2 = sell Calls.sell_70 Scenario.s1.
Proof.
  assert (Hok : Spec.sell_ok Calls.sell_70 Scenario.s1).
  { repeat split; try reflexivity. left. vm_compute. reflexivity. }
  rewrite (sell_relists Scenario.sell_100 Calls.sell_70 Scenario.s1 Scenario.s2
             (<[Variables.app_state := VUint AppState.selling_in_progress]>
                (<[Variables.asa_price := VUint 70]> Scenario.s1)) Hok);
    vm_compute; reflexivity.
Defined.

(** ** After a sale ends *)

Lemma buy_rejects_off_sale e g r0 r1 r2 st owner price escrow id :
  group e !! 0%nat = Some r0 →
  group e !! 1%nat = Some r1 →
  group e !! 2%nat = Some r2 →
  field g Variables.app_state = VUint st →
  field g Variables.asa_owner = VBytes owner →
  field g Variables.asa_price = VUint price →
  field g Variables.escrow_address = VBytes escrow →
  field g Variables.asa_id = VUint id →
  st ≠ AppState.selling_in_progress →
  buy e g = Halt 0 g.
Proof.
  intros H0 H1 H2 Hst Hown Hprice Hesc Hid Hne.
  rewrite (buy_typed e g r0 r1 r2 st owner price escrow id) by done.
  destruct (_ && _) eqn:Hb; [| done].
  rewrite !andb_true_iff, !Z.eqb_eq in Hb. by destruct Hb as [[[_ ?] _] _].
Qed.

(** X7.  stopSelling cancels the sale: once the owner has stopped it, a buy
    group that met every precondition of buy is rejected, and the store keeps
    the price that was asked. *)
Theorem stop_selling_cancels_sale es eb g :
  Spec.stop_selling_ok es g →
  Spec.buy_ok eb g →
  ∃ g1, stop_selling es g = Halt 1 g1
        ∧ g1 = <[Variables.app_state := VUint AppState.active]> g
        ∧ field g1 Variables.asa_price = field g Variables.asa_price
        ∧ buy eb g1 = Halt 0 g1
        ∧ run buy eb g1 = Rejected.
Proof.
  intros Hstop Hbuy.
  pose proof Hbuy as (r0 & r1 & r2 & Hg & Hst & _ & Hown & Hprice & _ & _ & _ & Hesc & Hid & _).
  eexists. split; [| split; [reflexivity |]].
  - rewrite (stop_selling_typed es g _ _ Hst Hown).
    by rewrite (proj2 (stop_selling_ok_iff es g _ _ Hst Hown) Hstop).
  - split; [by rewrite field_put_ne |].
    assert (H : buy eb (<[Variables.app_state := VUint AppState.active]> g)
                = Halt 0 (<[Variables.app_state := VUint AppState.active]> g)).
    { apply (buy_rejects_off_sale eb _ r0 r1 r2 AppState.active
               (receiver r1) (amount r1) (sender r2) (xfer_asset r2));
        rewrite ?Hg; repeat (rewrite field_put || rewrite field_put_ne by done);
        done. }
    by rewrite (run_Halt0 _ _ _ _ H).
Qed.

Lemma stop_selling_cancels_sale_witness :
  ∃ g1, stop_selling Calls.stop_sale Scenario.s2 = Halt 1 g1
        ∧ g1 = <[Variables.app_state := VUint AppState.active]> Scenario.s2
        ∧ field g1 Variables.asa_price = field Scenario.s2 Variables.asa_price
        ∧ buy Scenario.buy_group g1 = Halt 0 g1
        ∧ run buy Scenario.buy_group g1 = Rejected.
Proof.
  apply (stop_selling_cancels_sale Calls.stop_sale Scenario.buy_group Scenario.s2).
  - repeat split; try reflexivity. vm_compute. discriminate.
  - eexists _, _, _. repeat split; vm_compute; reflexivity.
Defined.

(** X8.  An accepted buy cannot be replayed: evaluated again on the store it
    produced, the same group is rejected. *)
Theorem buy_not_replayable e g :
  Spec.buy_ok e g →
  ∃ g1, buy e g = Halt 1 g1
        ∧ buy e g1 = Halt 0 g1
        ∧ run buy e g1 = Rejected
        ∧ commit buy e g1 = g1.
Proof.
  intros Hbuy.
  pose proof Hbuy as (r0 & r1 & r2 & Hg & Hst & _ & Hown & Hprice & _ & _ & _ & Hesc & Hid & _).
  destruct (buy_accepts e g Hbuy) as (x & Hx & H).
  rewrite Hg in Hx. simplify_eq/=.
  eexists. split; [exact H |].
  match goal with |- buy e ?g1 = _ ∧ _ => assert (H1 : buy e g1 = Halt 0 g1) end.
  { apply (buy_rejects_off_sale e _ x r1 r2 AppState.active
             (sender x) (amount r1) (sender r2) (xfer_asset r2));
      rewrite ?Hg; repeat (rewrite field_put || rewrite field_put_ne by done);
      done. }
  by rewrite (run_Halt0 _ _ _ _ H1), (commit_Halt0 _ _ _ _ H1).
Qed.

Lemma buy_not_replayable_witness :
  ∃ g1, buy Scenario.buy_group Scenario.s2 = Halt 1 g1
        ∧ buy Scenario.buy_group g1 = Halt 0 g1
        ∧ run buy Scenario.buy_group g1 = Rejected
        ∧ commit buy Scenario.buy_group g1 = g1.
Proof.
  apply (buy_not_replayable Scenario.buy_group Scenario.s2).
  eexists _, _, _. repeat split; vm_compute; reflexivity.
Defined.

(** X9.  An accepted buy hands the right to sell to the buyer: on the store
    it produces, a sell from any other account, the previous owner included,
    is rejected, and a sell sent alone by the buyer with a price of at most 8
    bytes is accepted. *)
Theorem buy_transfers_selling_right eb g r0 :
  Spec.buy_ok eb g →
  group eb !! 0%nat = Some r0 →
  ∃ g1, buy eb g = Halt 1 g1
        ∧ field g1 Variables.asa_owner = VBytes (sender r0)
        ∧ (∀ es, sender (Txn es) ≠ sender r0 →
                 sell es g1 = Halt 0 g1 ∧ run sell es g1 = Rejected)
        ∧ (∀ es m p, sender (Txn es) = sender r0 →
                     length (group es) = 1%nat →
                     application_args (Txn es) = [m; p] →
                     (String.length p ≤ 8)%nat →
                     run sell es g1
                     = Approved (<[Variables.app_state := VUint AppState.selling_in_progress]>
                                   (<[Variables.asa_price := VUint (btoi_acc 0 p)]> g1))).
Proof.
  intros Hbuy H0.
  destruct (buy_accepts eb g Hbuy) as (x & Hx & H). simplify_eq.
  eexists. split; [exact H |].
  assert (Hown : ∀ g0 : gmap string TealValue,
            field (<[Variables.app_state := VUint AppState.active]>
                     (<[Variables.asa_owner := VBytes (sender r0)]> g0))
              Variables.asa_owner = VBytes (sender r0)).
  { intros g0. by rewrite field_put_ne, field_put. }
  split; [apply Hown |]. split.
  - intros es Hne.
    assert (Hs : sell es (<[Variables.app_state := VUint AppState.active]>
                            (<[Variables.asa_owner := VBytes (sender r0)]> g))
                 = Halt 0 (<[Variables.app_state := VUint AppState.active]>
                             (<[Variables.asa_owner := VBytes (sender r0)]> g))).
    { rewrite (sell_typed es _ AppState.active (sender r0) (field_put _ _ _) (Hown g)).
      by rewrite (bool_decide_eq_false_2 _ Hne), andb_false_r. }
    by rewrite (run_Halt0 _ _ _ _ Hs).
  - intros es m p Hs Hlen Hargs Hp.
    assert (Hok : Spec.sell_ok es (<[Variables.app_state := VUint AppState.active]>
                                     (<[Variables.asa_owner := VBytes (sender r0)]> g))).
    { repeat split; [done | by rewrite Hargs | left; apply field_put |].
      by rewrite Hown, Hs. }
    assert (Harg : application_args (Txn es) !! 1%nat = Some p) by (by rewrite Hargs).
    pose proof (sell_accepts es _ p Hok Harg) as Hsell.
    rewrite (proj2 (Nat.leb_le _ _) Hp) in Hsell.
    by rewrite (run_Halt1 _ _ _ _ Hsell).
Qed.

Lemma buy_transfers_selling_right_witness :
  ∃ g1, buy Scenario.buy_group Scenario.s2 = Halt 1 g1
        ∧ field g1 Variables.asa_owner = VBytes Scenario.B
        ∧ (∀ es, sender (Txn es) ≠ Scenario.B →
                 sell es g1 = Halt 0 g1 ∧ run sell es g1 = Rejected)
        ∧ (∀ es m p, sender (Txn es) = Scenario.B →
                     length (group es) = 1%nat →
                     application_args (Txn es) = [m; p] →
                     (String.length p ≤ 8)%nat →
                     run sell es g1
                     = Approved (<[Variables.app_state := VUint AppState.selling_in_progress]>
                                   (<[Variables.asa_price := VUint (btoi_acc 0 p)]> g1))).
Proof.
  apply (buy_transfers_selling_right Scenario.buy_group Scenario.s2
           (Scenario.call 7 Scenario.B ["buy"])).
  - eexists _, _, _. repeat split; vm_compute; reflexivity.
  - reflexivity.
Defined.

(** ** More invariants of the reachable stores *)

Lemma commit_handler_shape a e g :
  commit (handler a) e g = g
  ∨ (∃ k1 v1 k2 v2, k1 ∈ variables ∧ k2 ∈ variables
       ∧ commit (handler a) e g = <[k1 := v1]> (<[k2 := v2]> g)).
Proof.
  assert (Hin : ∀ k, bool_decide (k ∈ variables) = true → k ∈ variables)
    by (intros k; apply bool_decide_eq_true_1).
  destruct a; simpl.
  - destruct (initialize_escrow_cases e g) as [H | [H | (x & _ & _ & H)]].
    + left. by apply (commit_Fail _ _ _ _ H).
    + left. by apply (commit_Halt0 _ _ _ _ H).
    + right. rewrite (commit_Halt1 _ _ _ _ H). eexists _, _, _, _.
      split; [| split; [| reflexivity]]; by apply Hin.
  - destruct (sell_cases e g) as [H | [H | (x & H)]].
    + left. by apply (commit_Fail _ _ _ _ H).
    + left. by apply (commit_Halt0 _ _ _ _ H).
    + right. rewrite (commit_Halt1 _ _ _ _ H). eexists _, _, _, _.
      split; [| split; [| reflexivity]]; by apply Hin.
  - destruct (buy_cases e g) as [H | [H | (x & _ & H)]].
    + left. by apply (commit_Fail _ _ _ _ H).
    + left. by apply (commit_Halt0 _ _ _ _ H).
    + right. rewrite (commit_Halt1 _ _ _ _ H). eexists _, _, _, _.
      split; [| split; [| reflexivity]]; by apply Hin.
  - destruct (stop_selling_cases e g) as [H | [H | H]].
    + left. by apply (commit_Fail _ _ _ _ H).
    + left. by apply (commit_Halt0 _ _ _ _ H).
    + right. rewrite (commit_Halt1 _ _ _ _ H).
      exists Variables.app_state, (VUint AppState.active),
        Variables.app_state, (VUint AppState.active).
      split; [by apply Hin |]. split; [by apply Hin |].
      by rewrite insert_insert_eq.
Qed.

Lemma reachable_keys g k :
  reachable g → is_Some (g !! k) → k ∈ variables.
Proof.
  assert (Hin : ∀ k, bool_decide (k ∈ variables) = true → k ∈ variables)
    by (intros k0; apply bool_decide_eq_true_1).
  intros Hreach. revert k.
  induction Hreach as [e g Hid Hrun | e g _ IH Hid]; intros k.
  - revert Hrun. unfold run, approval_program.
    rewrite application_start_creation, app_initialization_eq by done.
    destruct (application_args (Txn e)) as [| a0 [| a1 [| a2 [| a3 rest]]]]; try done.
    destruct (String.length a0 <=? 8)%nat; [| done]. cbv zeta.
    destruct (storable Variables.asa_owner (VBytes a1)); [| done].
    destruct (storable Variables.app_admin (VBytes a2)); [| done].
    simpl. intros [= <-]. rewrite !lookup_insert.
    repeat case_decide; subst; try (intros _; by apply Hin).
    rewrite lookup_empty. by intros [? ?].
  - destruct (commit_approval_program e g Hid) as [-> | [a ->]]; [apply IH |].
    destruct (commit_handler_shape a e g) as [-> | (k1 & v1 & k2 & v2 & ? & ? & ->)];
      [apply IH |].
    rewrite !lookup_insert. repeat case_decide; subst; auto.
Qed.

Lemma handler_priced a e g :
  (field g Variables.app_state = VUint AppState.selling_in_progress →
   is_Some (g !! Variables.asa_price)) →
  field (commit (handler a) e g) Variables.app_state
  = VUint AppState.selling_in_progress →
  is_Some (commit (handler a) e g !! Variables.asa_price).
Proof.
  intros IH. destruct a; simpl.
  - destruct (initialize_escrow_cases e g) as [H | [H | (x & _ & _ & H)]].
    + by rewrite (commit_Fail _ _ _ _ H).
    + by rewrite (commit_Halt0 _ _ _ _ H).
    + rewrite (commit_Halt1 _ _ _ _ H), field_put. done.
  - destruct (sell_cases e g) as [H | [H | (x & H)]].
    + by rewrite (commit_Fail _ _ _ _ H).
    + by rewrite (commit_Halt0 _ _ _ _ H).
    + rewrite (commit_Halt1 _ _ _ _ H). intros _.
      rewrite lookup_insert_ne, lookup_insert_eq by done. by eexists.
  - destruct (buy_cases e g) as [H | [H | (x & _ & H)]].
    + by rewrite (commit_Fail _ _ _ _ H).
    + by rewrite (commit_Halt0 _ _ _ _ H).
    + rewrite (commit_Halt1 _ _ _ _ H), field_put. done.
  - destruct (stop_selling_cases e g) as [H | [H | H]].
    + by rewrite (commit_Fail _ _ _ _ H).
    + by rewrite (commit_Halt0 _ _ _ _ H).
    + rewrite (commit_Halt1 _ _ _ _ H), field_put. done.
Qed.

Lemma reachable_priced g :
  reachable g →
  field g Variables.app_state = VUint AppState.selling_in_progress →
  is_Some (g !! Variables.asa_price).
Proof.
  induction 1 as [e g Hid Hrun | e g Hreach IH Hid].
  - revert Hrun. unfold run, approval_program.
    rewrite application_start_creation, app_initialization_eq by done.
    destruct (application_args (Txn e)) as [| a0 [| a1 [| a2 [| a3 rest]]]]; try done.
    destruct (String.length a0 <=? 8)%nat; [| done]. cbv zeta.
    destruct (storable Variables.asa_owner (VBytes a1)); [| done].
    destruct (storable Variables.app_admin (VBytes a2)); [| done].
    simpl. intros [= <-]. rewrite !field_put_ne, field_put by done. done.
  - destruct (commit_approval_program e g Hid) as [-> | [a ->]]; [done |].
    by apply handler_priced.
Qed.

(** X10.  Every store the contract can be in holds only the six keys of
    [Variables]; the asset id and the state are uint64, the state one of 0, 1
    and 2; the owner and the admin are byte strings; the escrow address is
    unset exactly while the state is [NotInitialized] and a byte string after;
    and whenever the asset is on sale a price is stored. *)
Theorem reachable_store_shape g :
  reachable g →
  (∀ k, is_Some (g !! k) → k ∈ variables)
  ∧ (∃ st id owner admin,
       g !! Variables.app_state = Some (VUint st)
       ∧ (st = AppState.not_initialized ∨ on_listing st)
       ∧ g !! Variables.asa_id = Some (VUint id)
       ∧ g !! Variables.asa_owner = Some (VBytes owner)
       ∧ g !! Variables.app_admin = Some (VBytes admin)
       ∧ (st = AppState.not_initialized → g !! Variables.escrow_address = None)
       ∧ (on_listing st →
          ∃ escrow, g !! Variables.escrow_address = Some (VBytes escrow))
       ∧ (st = AppState.selling_in_progress →
          ∃ price, g !! Variables.asa_price = Some (VUint price))).
Proof.
  intros Hreach. split; [intros k; by apply reachable_keys |].
  pose proof (reachable_priced g Hreach) as Hpriced.
  destruct (reachable_listing_inv g Hreach) as (Hwt & st0 & Hst0 & Hrange & Hesc).
  unfold well_typed, field in *.
  repeat (apply andb_prop in Hwt as [Hwt ?]).
  destruct (g !! Variables.app_state) as [[st |] |]; try done.
  destruct (g !! Variables.asa_id) as [[id |] |]; try done.
  destruct (g !! Variables.asa_owner) as [[| owner] |]; try done.
  destruct (g !! Variables.app_admin) as [[| admin] |]; try done.
  simpl in *. simplify_eq.
  exists st0, id, owner, admin. repeat split; try done.
  - by apply Hesc.
  - intros Hon.
    destruct (g !! Variables.escrow_address) as [[| escrow] |] eqn:Hv; try done.
    + by eexists.
    + unfold on_listing in Hon. assert (st0 = 0) by (by apply Hesc).
      destruct Hon; subst; done.
  - intros ->. destruct Hpriced as [v Hv]; [done |].
    rewrite Hv in *. destruct v; [by eexists | done].
Qed.

Lemma reachable_store_shape_witness :
  ∃ st id owner admin,
    Scenario.s2 !! Variables.app_state = Some (VUint st)
    ∧ (st = AppState.not_initialized ∨ on_listing st)
    ∧ Scenario.s2 !! Variables.asa_id = Some (VUint id)
    ∧ Scenario.s2 !! Variables.asa_owner = Some (VBytes owner)
    ∧ Scenario.s2 !! Variables.app_admin = Some (VBytes admin)
    ∧ (st = AppState.not_initialized →
       Scenario.s2 !! Variables.escrow_address = None)
    ∧ (on_listing st →
       ∃ escrow, Scenario.s2 !! Variables.escrow_address = Some (VBytes escrow))
    ∧ (st = AppState.selling_in_progress →
       ∃ price, Scenario.s2 !! Variables.asa_price = Some (VUint price)).
Proof.
  exact (proj2 (reachable_store_shape Scenario.s2 scenario_reachable)).
Defined.

(** ** Fields that are never rewritten *)

Lemma run_calls_frame cs k : ∀ g,
  (∀ a, k ∉ writes a) → run_calls cs g !! k = g !! k.
Proof.
  induction cs as [| [a e] cs IH]; intros g Hk; [done |]. simpl.
  rewrite IH by done. by apply commit_frame.
Qed.

Lemma asa_id_not_written a : Variables.asa_id ∉ writes a.
Proof. destruct a; not_written. Qed.

Lemma app_admin_not_written a : Variables.app_admin ∉ writes a.
Proof. destruct a; not_written. Qed.

(** X11.  After creation the asset id and the admin are never rewritten:
    no call to the existing application and no history of calls changes
    [ASA_ID] or [APP_ADMIN].  The owner changes only by an accepted buy, and
    then to the sender of record 0 of the group. *)
Theorem identity_fields_immutable :
  (∀ cs (g : gmap string TealValue),
     run_calls cs g !! Variables.asa_id = g !! Variables.asa_id
     ∧ run_calls cs g !! Variables.app_admin = g !! Variables.app_admin)
  ∧ (∀ e (g : gmap string TealValue),
       application_id (Txn e) ≠ 0 →
       commit approval_program e g !! Variables.asa_id = g !! Variables.asa_id
       ∧ commit approval_program e g !! Variables.app_admin
         = g !! Variables.app_admin)
  ∧ (∀ a e (g : gmap string TealValue),
       commit (handler a) e g !! Variables.asa_owner = g !! Variables.asa_owner
       ∨ (a = Buy
          ∧ ∃ r0 g', group e !! 0%nat = Some r0
                     ∧ run buy e g = Approved g'
                     ∧ g' !! Variables.asa_owner = Some (VBytes (sender r0)))).
Proof.
  split; [| split].
  - intros cs g. split; apply run_calls_frame;
      [apply asa_id_not_written | apply app_admin_not_written].
  - intros e g Hid.
    destruct (commit_approval_program e g Hid) as [-> | [a ->]]; [done |].
    split; apply commit_frame;
      [apply asa_id_not_written | apply app_admin_not_written].
  - intros a e g. destruct (decide (a = Buy)) as [-> | Hne].
    + simpl. destruct (buy_cases e g) as [H | [H | (r0 & H0 & H)]].
      * left. by rewrite (commit_Fail _ _ _ _ H).
      * left. by rewrite (commit_Halt0 _ _ _ _ H).
      * right. split; [done |]. exists r0. eexists.
        rewrite (run_Halt1 _ _ _ _ H). repeat split; [done |].
        by rewrite lookup_insert_ne, lookup_insert_eq.
    + left. apply commit_frame. destruct a; [not_written.. | done | not_written].
Qed.

Lemma identity_fields_immutable_witness :
  commit approval_program Scenario.buy_group Scenario.s2 !! Variables.asa_id
  = Scenario.s2 !! Variables.asa_id
  ∧ commit approval_program Scenario.buy_group Scenario.s2 !! Variables.app_admin
    = Scenario.s2 !! Variables.app_admin.
Proof.
  apply (proj1 (proj2 identity_fields_immutable) Scenario.buy_group Scenario.s2).
  discriminate.
Defined.

(** ** The schema *)

Lemma size_filter_keys (P : string * TealValue → Prop) `{∀ x, Decision (P x)}
    (g : gmap string TealValue) (a b c : string) :
  (∀ k v, g !! k = Some v → P (k, v) → k = a ∨ k = b ∨ k = c) →
  (size (filter P g) ≤ 3)%nat.
Proof.
  intros Hk.
  rewrite <- size_dom.
  transitivity (size ({[a]} ∪ {[b]} ∪ {[c]} : gset string)).
  - apply subseteq_size. intros k Hin.
    apply elem_of_dom in Hin as [v Hv].
    apply map_lookup_filter_Some in Hv as [Hv HP].
    rewrite !elem_of_union, !elem_of_singleton.
    destruct (Hk k v Hv HP) as [-> | [-> | ->]]; auto.
  - rewrite !size_union_alt.
    pose proof (subseteq_size ({[b]} ∖ {[a]}) ({[b]} : gset string)
                  ltac:(by apply subseteq_difference_l)).
    pose proof (subseteq_size ({[c]} ∖ ({[a]} ∪ {[b]})) ({[c]} : gset string)
                  ltac:(by apply subseteq_difference_l)).
    rewrite !size_singleton in *. lia.
Qed.

(** X12.  Every store the contract can be in fits the global schema the
    contract declares: it holds at most 3 uint64 values and at most 3 byte
    slices. *)
Theorem reachable_fits_schema g :
  reachable g → fits_schema Schema.global_schema g.
Proof.
  intros Hreach.
  pose proof (reachable_keys g) as Hkeys. specialize (Hkeys).
  destruct (reachable_listing_inv g Hreach) as (Hwt & _).
  unfold well_typed in Hwt. repeat (apply andb_prop in Hwt as [Hwt ?]).
  assert (Hvars : ∀ k v, g !! k = Some v →
            k = Variables.escrow_address ∨ k = Variables.asa_id
            ∨ k = Variables.asa_price ∨ k = Variables.asa_owner
            ∨ k = Variables.app_state ∨ k = Variables.app_admin).
  { intros k v Hv. assert (Hin : k ∈ variables) by (apply Hkeys; [done | by eexists]).
    unfold variables in Hin. rewrite !elem_of_cons, elem_of_nil in Hin. tauto. }
  split; simpl.
  - apply (size_filter_keys _ g Variables.asa_id Variables.asa_price Variables.app_state).
    intros k v Hv HP. simpl in HP.
    destruct (Hvars k v Hv) as [-> | [-> | [-> | [-> | [-> | ->]]]]]; auto;
      rewrite Hv in *; by destruct v.
  - apply (size_filter_keys _ g Variables.escrow_address Variables.asa_owner
             Variables.app_admin).
    intros k v Hv HP. simpl in HP.
    destruct (Hvars k v Hv) as [-> | [-> | [-> | [-> | [-> | ->]]]]]; auto;
      rewrite Hv in *; by destruct v.
Qed.

Lemma reachable_fits_schema_witness :
  fits_schema Schema.global_schema Scenario.s2.
Proof. exact (reachable_fits_schema Scenario.s2 scenario_reachable). Defined.

(** The scenario store on sale uses the schema in full. *)
Example scenario_uses_schema :
  count_uints Scenario.s2 = 3%nat ∧ count_byte_slices Scenario.s2 = 3%nat.
Proof. by vm_compute. Qed.

(** ** Paying for the asset *)

(** X13.  While the asset is on sale in a reachable store, a group of at
    least three records whose record 1 does not pay the stored owner, or does
    not pay exactly the stored price, is rejected whatever its other fields,
    and nothing is written. *)
Theorem buy_needs_exact_payment e g r1 :
  reachable g →
  field g Variables.app_state = VUint AppState.selling_in_progress →
  group e !! 1%nat = Some r1 →
  (3 ≤ length (group e))%nat →
  field g Variables.asa_owner ≠ VBytes (receiver r1)
  ∨ field g Variables.asa_price ≠ VUint (amount r1) →
  buy e g = Halt 0 g ∧ run buy e g = Rejected ∧ commit buy e g = g.
Proof.
  intros Hreach Hst H1 Hlen Hbad.
  destruct (reachable_initialized g Hreach) as [Hwt Hset]; [by rewrite Hst |].
  assert (Hnok : ¬ Spec.buy_ok e g).
  { intros (x0 & x1 & x2 & Hg & _ & _ & Hown & Hprice & _).
    rewrite Hg in H1. simplify_eq/=. by destruct Hbad. }
  pose proof (buy_rejects e g Hwt Hset Hnok Hlen) as H.
  by rewrite (run_Halt0 _ _ _ _ H), (commit_Halt0 _ _ _ _ H).
Qed.

Lemma buy_needs_exact_payment_witness :
  buy Calls.buy_underpaid Scenario.s2 = Halt 0 Scenario.s2
  ∧ run buy Calls.buy_underpaid Scenario.s2 = Rejected
  ∧ commit buy Calls.buy_underpaid Scenario.s2 = Scenario.s2.
Proof.
  apply (buy_needs_exact_payment Calls.buy_underpaid Scenario.s2
           (Scenario.payment Scenario.B Scenario.A 99) scenario_reachable).
  - vm_compute. reflexivity.
  - reflexivity.
  - simpl. lia.
  - right. vm_compute. discriminate.
Defined.

(** X14.  sell puts no lower bound on the price: with an empty second
    argument, which [Btoi] reads as 0, a sell that meets its preconditions is
    accepted and lists the asset at price 0. *)
Theorem sell_empty_price_lists_at_zero e g :
  Spec.sell_ok e g →
  application_args (Txn e) !! 1%nat = Some EmptyString →
  run sell e g
  = Approved (<[Variables.app_state := VUint AppState.selling_in_progress]>
                (<[Variables.asa_price := VUint 0]> g)).
Proof.
  intros Hok Hp. pose proof (sell_accepts e g _ Hok Hp) as H. simpl in H.
  by rewrite (run_Halt1 _ _ _ _ H).
Qed.

Lemma sell_empty_price_lists_at_zero_witness :
  run sell Calls.sell_no_price Scenario.s1
  = Approved (<[Variables.app_state := VUint AppState.selling_in_progress]>
                (<[Variables.asa_price := VUint 0]> Scenario.s1)).
Proof.
  apply (sell_empty_price_lists_at_zero Calls.sell_no_price Scenario.s1).
  - repeat split; try reflexivity. left. vm_compute. reflexivity.
  - reflexivity.
Defined.
